(** * A WebSub-to-Discord relay: shallow embedding of [main.py]

    The development follows the layout of the Python module:

    - Python values and exceptions;
    - the pieces of [hashlib], [hmac] and [str] that [_verify_signature]
      calls (SHA-1, HMAC, [hexdigest], [strip], [compare_digest]);
    - [_verify_signature], [subscribe_websub], [parse_atom_for_video];
    - the [announce_video] coroutine and the two aiohttp handlers
      [websub_get] and [websub_post], run by an event loop whose schedule
      is arbitrary.

    A Python [str] is a [string].  The functions that look inside a
    character ([isspace], [isascii], [encode]) read it as the code point
    with the same number, so the characters from 128 on are the non-ASCII
    ones and the strings covered are those with code points below 256; the
    one literal beyond that range, the megaphone of the announcement, is
    only concatenated.  A Python [bytes] is a [list byte].  A call that
    may raise returns a [result]; [print] is left out. *)

From Stdlib Require Import ZArith Ascii String List Bool Lia.
From Stdlib.Strings Require Import Byte.
From Stdlib Require Import DecimalString.
From stdpp Require Import base decidable option list strings gmap.

Import ListNotations.
Local Open Scope Z_scope.

(** ** Python results *)

Inductive exn : Type :=
| TypeError (msg : string)
| IndexError (msg : string)
| RuntimeError (msg : string)
| ParseError (msg : string)
| ClientError (msg : string)      (* aiohttp client failures *)
| DiscordException (msg : string) (* discord.py failures: NotFound, Forbidden, HTTPException *).

Inductive result (A : Type) : Type :=
| Ok (a : A)
| Raise (e : exn).
Arguments Ok {A} a.
Arguments Raise {A} e.

(** Exceptions propagate through [x ← r; k], stdpp's monadic bind. *)
#[global] Instance result_ret : MRet result := fun A a => Ok a.
#[global] Instance result_bind : MBind result := fun A B k r =>
  match r with
  | Ok a => k a
  | Raise e => Raise e
  end.

Definition bytes := list byte.

(** ** hashlib.sha1 (FIPS 180-4), on 32-bit words held in [Z] *)

Module Sha1.

Definition mask32 (x : Z) : Z := Z.land x 0xFFFFFFFF.
Definition add32 (x y : Z) : Z := mask32 (x + y).
Definition rotl (n x : Z) : Z :=
  mask32 (Z.lor (Z.shiftl x n) (Z.shiftr x (32 - n))).
Definition not32 (x : Z) : Z := Z.lxor x 0xFFFFFFFF.

Definition byte_to_Z (b : byte) : Z := Z.of_N (Byte.to_N b).
Definition Z_to_byte (z : Z) : byte :=
  match Byte.of_N (Z.to_N (Z.land z 0xFF)) with
  | Some b => b
  | None => x00
  end.

(** Big-endian encoding of [x] on [n] bytes. *)
Fixpoint be_bytes (n : nat) (x : Z) : list Z :=
  match n with
  | O => []
  | S n' => Z.land (Z.shiftr x (8 * Z.of_nat n')) 0xFF :: be_bytes n' x
  end.

Definition be_word (bs : list Z) : Z :=
  fold_left (fun acc b => Z.lor (Z.shiftl acc 8) b) bs 0.

Fixpoint chunks (n fuel : nat) (l : list Z) : list (list Z) :=
  match fuel with
  | O => []
  | S fuel' =>
      match l with
      | [] => []
      | _ => firstn n l :: chunks n fuel' (skipn n l)
      end
  end.

Definition pad (msg : list Z) : list Z :=
  let len := Z.of_nat (length msg) in
  let zeros := Z.to_nat ((55 - len) mod 64) in
  msg ++ [0x80] ++ repeat 0 zeros ++ be_bytes 8 (8 * len).

(** Message schedule: sixteen block words extended to eighty. *)
Fixpoint expand (k : nat) (w : list Z) : list Z :=
  match k with
  | O => w
  | S k' =>
      let t := length w in
      let x := Z.lxor (Z.lxor (nth (t - 3) w 0) (nth (t - 8) w 0))
                      (Z.lxor (nth (t - 14) w 0) (nth (t - 16) w 0)) in
      expand k' (w ++ [rotl 1 x])
  end.

Definition f_t (t : nat) (b c d : Z) : Z :=
  if (t <? 20)%nat then Z.lor (Z.land b c) (Z.land (not32 b) d)
  else if (t <? 40)%nat then Z.lxor (Z.lxor b c) d
  else if (t <? 60)%nat then Z.lor (Z.lor (Z.land b c) (Z.land b d)) (Z.land c d)
  else Z.lxor (Z.lxor b c) d.

Definition k_t (t : nat) : Z :=
  if (t <? 20)%nat then 0x5A827999
  else if (t <? 40)%nat then 0x6ED9EBA1
  else if (t <? 60)%nat then 0x8F1BBCDC
  else 0xCA62C1D6.

Record state := State { h0 : Z; h1 : Z; h2 : Z; h3 : Z; h4 : Z }.

Definition init : state :=
  State 0x67452301 0xEFCDAB89 0x98BADCFE 0x10325476 0xC3D2E1F0.

Definition round (s : state) (tw : nat * Z) : state :=
  let '(t, w) := tw in
  let tmp := add32 (add32 (add32 (add32 (rotl 5 (h0 s)) (f_t t (h1 s) (h2 s) (h3 s)))
                                 (h4 s)) (k_t t)) w in
  State tmp (h0 s) (rotl 30 (h1 s)) (h2 s) (h3 s).

Definition compress (s : state) (block : list Z) : state :=
  let w := expand 64 (map be_word (chunks 4 16 block)) in
  let r := fold_left round (combine (seq 0 80) w) s in
  State (add32 (h0 s) (h0 r)) (add32 (h1 s) (h1 r)) (add32 (h2 s) (h2 r))
        (add32 (h3 s) (h3 r)) (add32 (h4 s) (h4 r)).

Definition digest (msg : bytes) : bytes :=
  let padded := pad (map byte_to_Z msg) in
  let s := fold_left compress (chunks 64 (length padded) padded) init in
  map Z_to_byte
      (be_bytes 4 (h0 s) ++ be_bytes 4 (h1 s) ++ be_bytes 4 (h2 s)
       ++ be_bytes 4 (h3 s) ++ be_bytes 4 (h4 s)).

Definition block_size : nat := 64.

End Sha1.

(** ** hmac.new(key, msg, hashlib.sha1) (RFC 2104) *)

Module Hmac.

Definition xor_pad (p : Z) (key : bytes) : bytes :=
  map (fun b => Sha1.Z_to_byte (Z.lxor (Sha1.byte_to_Z b) p)) key.

Definition block_key (key : bytes) : bytes :=
  let k := if (Sha1.block_size <? length key)%nat then Sha1.digest key else key in
  k ++ repeat x00 (Sha1.block_size - length k).

Definition digest (key msg : bytes) : bytes :=
  let k := block_key key in
  Sha1.digest (xor_pad 0x5C k ++ Sha1.digest (xor_pad 0x36 k ++ msg)).

Definition hexdigit (n : N) : ascii :=
  if (n <? 10)%N then ascii_of_N (48 + n) else ascii_of_N (87 + n).

Definition hex_of_byte (b : byte) : list ascii :=
  let n := Byte.to_N b in
  [hexdigit (n / 16)%N; hexdigit (n mod 16)%N].

Definition hex (bs : bytes) : string :=
  string_of_list_ascii (concat (map hex_of_byte bs)).

Definition hexdigest (key msg : bytes) : string := hex (digest key msg).

End Hmac.

(** ** The [str] methods the module uses *)

Module Str.

(** Truth value of a [str]: only the empty string is false. *)
Definition truthy (s : string) : bool :=
  match s with
  | EmptyString => false
  | String _ _ => true
  end.

Definition startswith (s p : string) : bool := String.prefix p s.

(** [s.split(sep, 1)]: at most one split, at the first separator. *)
Fixpoint split_once (sep : ascii) (s : string) : list string :=
  match s with
  | EmptyString => [EmptyString]
  | String c s' =>
      if Ascii.eqb c sep then [EmptyString; s']
      else match split_once sep s' with
           | h :: t => String c h :: t
           | [] => [String c EmptyString]
           end
  end.

(** [str.isspace] on one code point below 256: tab to carriage return,
    the four separators 28-31, space, NEL and no-break space. *)
Definition isspace (c : ascii) : bool :=
  let n := N_of_ascii c in
  ((9 <=? n) && (n <=? 13) || (28 <=? n) && (n <=? 32)
   || (n =? 133) || (n =? 160))%N.

Fixpoint lstrip (s : string) : string :=
  match s with
  | EmptyString => EmptyString
  | String c s' => if isspace c then lstrip s' else s
  end.

Fixpoint rstrip (s : string) : string :=
  match s with
  | EmptyString => EmptyString
  | String c s' =>
      match rstrip s' with
      | EmptyString => if isspace c then EmptyString else String c EmptyString
      | r => String c r
      end
  end.

Definition strip (s : string) : string := rstrip (lstrip s).

Definition isascii_char (c : ascii) : bool := (N_of_ascii c <? 128)%N.

Fixpoint isascii (s : string) : bool :=
  match s with
  | EmptyString => true
  | String c s' => isascii_char c && isascii s'
  end.

(** [s.encode("utf-8")] for code points below 256: one byte below 128,
    two bytes from 128 on. *)
Definition encode_char (c : ascii) : bytes :=
  let n := N_of_ascii c in
  if (n <? 128)%N then [byte_of_ascii c]
  else [byte_of_ascii (ascii_of_N (192 + n / 64));
        byte_of_ascii (ascii_of_N (128 + n mod 64))].

Fixpoint encode_utf8 (s : string) : bytes :=
  match s with
  | EmptyString => []
  | String c s' => encode_char c ++ encode_utf8 s'
  end.

(** [str(n)] for an integer. *)
Definition of_Z (n : Z) : string := NilZero.string_of_int (Z.to_int n).

End Str.

(** [hmac.compare_digest] on two [str]: both must be ASCII, otherwise it
    raises [TypeError]; on ASCII strings it is equality (in constant time). *)
Definition compare_digest (a b : string) : result bool :=
  if Str.isascii a && Str.isascii b then Ok (String.eqb a b)
  else Raise (TypeError "comparing strings with non-ASCII characters is not supported").

(** ** [_verify_signature] (main.py, lines 41-55) *)

Section Signature.

Variable WEBSUB_SECRET : string.

Definition _verify_signature (raw_body : bytes) (signature_header : string)
  : result bool :=
  if negb (Str.truthy WEBSUB_SECRET) then Ok true
  else if negb (Str.truthy signature_header)
          || negb (Str.startswith signature_header "sha1=")
  then Ok false
  else
    match Str.split_once "="%char signature_header !! 1%nat with
    | None => Raise (IndexError "list index out of range")
    | Some part =>
        let their_sig := Str.strip part in
        let our_sig := Hmac.hexdigest (Str.encode_utf8 WEBSUB_SECRET) raw_body in
        compare_digest our_sig their_sig
    end.

End Signature.

(** ** [subscribe_websub] (lines 58-75)

    The [ClientSession] is the list of requests posted through it so far,
    together with the hub's behaviour: what the n-th request is answered. *)

Definition HUB_URL : string := "https://pubsubhubbub.appspot.com/subscribe".

Record HttpRequest := {
  req_url : string;
  req_data : list (string * string)
}.

Record HubResponse := {
  resp_status : Z;
  resp_text : result string   (* [await resp.text()] *)
}.

Record ClientSession := {
  posted : list HttpRequest;
  hub : nat -> HttpRequest -> result HubResponse
}.

Definition session_post (session : ClientSession) (url : string)
    (data : list (string * string)) : ClientSession * result HubResponse :=
  let rq := {| req_url := url; req_data := data |} in
  ({| posted := posted session ++ [rq]; hub := hub session |},
   hub session (length (posted session)) rq).

Definition accepted_statuses : list Z := [202; 204; 200].

Section Subscribe.

Variables TOPIC_URL CALLBACK_URL WEBSUB_SECRET : string.

Definition subscribe_data : list (string * string) :=
  let data := [("hub.mode", "subscribe");
               ("hub.topic", TOPIC_URL);
               ("hub.callback", CALLBACK_URL);
               ("hub.verify", "async")] in
  if Str.truthy WEBSUB_SECRET then data ++ [("hub.secret", WEBSUB_SECRET)]
  else data.

Definition subscribe_websub (session : ClientSession)
  : ClientSession * result unit :=
  let '(session, r) := session_post session HUB_URL subscribe_data in
  (session,
   resp ← r;
   text ← resp_text resp;
   if bool_decide (resp_status resp ∈ accepted_statuses) then Ok tt
   else Raise (RuntimeError ("WebSub subscribe failed: "
                             +:+ Str.of_Z (resp_status resp) +:+ " " +:+ text))).

End Subscribe.

(** ** xml.etree.ElementTree

    An [Element] as [ET.fromstring] builds it: the tag in Clark notation
    ("{uri}local"), the attribute dictionary, the text before the first
    child ([None] when there is none), and the child elements in document
    order. *)

#[local] Set Warnings "-register-all".
Inductive Element : Type :=
  Elem { tag : string;
         attrib : gmap string string;
         text : option string;
         children : list Element }.

Module ET.

Definition assoc (k : string) (l : list (string * string)) : option string :=
  snd <$> List.find (fun kv => String.eqb (fst kv) k) l.

(** "prefix:local" to "{uri}local", as ElementPath does with the
    [namespaces] argument.  (An unknown prefix is a SyntaxError there;
    the module only uses the two prefixes of its own map.) *)
Definition resolve (ns : list (string * string)) (path : string) : string :=
  match Str.split_once ":"%char path with
  | [pfx; loc] =>
      match assoc pfx ns with
      | Some uri => "{" +:+ uri +:+ "}" +:+ loc
      | None => path
      end
  | _ => path
  end.

(** [el.find(path, ns)]: the first child with that tag, or [None]. *)
Definition find (el : Element) (path : string) (ns : list (string * string))
  : option Element :=
  List.find (fun c => String.eqb (tag c) (resolve ns path)) (children el).

Definition assoc_tree (k : string) (l : list (string * Element)) : option Element :=
  snd <$> List.find (fun kv => String.eqb (fst kv) k) l.

(** [el.iter()]: the element and all its descendants, document order. *)
Fixpoint iter (el : Element) : list Element :=
  match el with
  | Elem _ _ _ cs => el :: flat_map iter cs
  end.

End ET.

(** Truth value of a [str]-or-[None]. *)
Definition truthy_opt (s : option string) : bool :=
  match s with
  | Some s => Str.truthy s
  | None => false
  end.

(** ** [parse_atom_for_video] (lines 78-109) *)

Definition ns : list (string * string) :=
  [("atom", "http://www.w3.org/2005/Atom");
   ("yt", "http://www.youtube.com/xml/schemas/2015")].

Definition watch_url (video_id : string) : string :=
  "https://www.youtube.com/watch?v=" +:+ video_id.

Record Video := {
  v_id : string;
  v_title : option string;
  v_link : option string
}.

Section Parse.

(** [ET.fromstring]: the parsed root, or [ParseError]. *)
Variable ET_fromstring : string -> result Element.

Definition parse_atom_for_video (atom_xml : string) : result (option Video) :=
  root ← ET_fromstring atom_xml;
  match ET.find root "atom:entry" ns with
  | None => Ok None
  | Some entry =>
      let video_id_el := ET.find entry "yt:videoId" ns in
      let title_el := ET.find entry "atom:title" ns in
      let link_el := ET.find entry "atom:link" ns in
      let video_id :=
        match video_id_el with Some el => text el | None => None end in
      let title :=
        match title_el with Some el => text el | None => Some "(no title)" end in
      let link : option string := None in
      let link :=
        match link_el with
        | Some el =>
            match attrib el !! "href" with
            | Some href => Some href
            | None => link
            end
        | None => link
        end in
      let link :=
        match video_id with
        | Some vid =>
            if negb (truthy_opt link) && Str.truthy vid
            then Some (watch_url vid) else link
        | None => link
        end in
      match video_id with
      | Some vid =>
          if negb (Str.truthy vid) then Ok None
          else Ok (Some {| v_id := vid; v_title := title; v_link := link |})
      | None => Ok None
      end
  end.

End Parse.

(** ** The aiohttp side: requests and responses *)

Record Request := {
  rq_body : bytes;                      (* [await request.read()] *)
  rq_headers : list (string * string);  (* [request.headers], keys compared without case *)
  rq_query : list (string * string)     (* [request.query] *)
}.

Record Response := {
  status : Z;
  body : option string
}.

Module Multidict.

Definition lower_char (c : ascii) : ascii :=
  let n := N_of_ascii c in
  if ((65 <=? n) && (n <=? 90))%N then ascii_of_N (n + 32) else c.

Fixpoint lower (s : string) : string :=
  match s with
  | EmptyString => EmptyString
  | String c s' => String (lower_char c) (lower s')
  end.

(** [d.get(key)] on a multidict: the first value under the key. *)
Definition get (d : list (string * string)) (key : string) : option string :=
  snd <$> List.find (fun kv => String.eqb (fst kv) key) d.

(** [d.get(key, default)] on a case-insensitive multidict. *)
Definition ci_get (d : list (string * string)) (key default : string) : string :=
  match List.find (fun kv => String.eqb (lower (fst kv)) (lower key)) d with
  | Some kv => snd kv
  | None => default
  end.

End Multidict.

(** [web.Response(text=...)] has status 200 unless one is given. *)
Definition text_response (t : string) : Response := {| status := 200; body := Some t |}.

(** ** [websub_get] (lines 130-135) *)

Definition websub_get (request : Request) : Response :=
  let challenge := Multidict.get (rq_query request) "hub.challenge" in
  if truthy_opt challenge then text_response (default "" challenge)
  else text_response "ok".

(** ** The bot: dedup set, event-loop tasks, Discord *)

Record Channel := { channel_id : Z }.

(** Where an [announce_video] coroutine stands. *)
Inductive Pc : Type :=
| Created                       (* scheduled by [create_task], not yet run *)
| AwaitFetch                    (* suspended in [await bot.fetch_channel(...)], line 123 *)
| AwaitSend (channel : Channel) (* suspended in [await channel.send(...)], line 125 *)
| Returned
| Raised (e : exn).

Record Task := {
  t_video_id : string;
  t_title : option string;
  t_link : option string;
  t_pc : Pc
}.

Record World := {
  seen_video_ids : gset string;
  tasks : list Task;                   (* tasks of [bot.loop], in creation order *)
  delivered : list (Channel * string)  (* messages Discord accepted, oldest first *)
}.

Definition init : World :=
  {| seen_video_ids := ∅; tasks := []; delivered := [] |}.

(** What an observer of the process sees, in order. *)
Inductive Action : Type :=
| Rejected (video_id : string)   (* line 117: already seen, return *)
| Added (video_id : string)      (* line 118: [seen_video_ids.add] *)
| Lookup (video_id : string)     (* line 120: [bot.get_channel] *)
| Fetch (video_id : string)      (* line 123: [bot.fetch_channel] called *)
| Send (video_id : string) (channel : Channel) (message : string)
                                 (* line 125: [channel.send] called *)
| Responded (r : result Response).

(** What Discord answers when a task runs: the channel cache, the outcome
    of [fetch_channel], the outcome of [send]. *)
Record Env := {
  cached : option Channel;
  fetched : result Channel;
  sent : result unit
}.

(** [f"{x}"] for a [str]-or-[None]. *)
Definition fmt (x : option string) : string := default "None" x.

Definition newline : string := String (ascii_of_N 10) EmptyString.

Definition announcement (title link : option string) : string :=
  "📢 **New upload:** " +:+ fmt title +:+ newline +:+ fmt link.

Definition at_pc (t : Task) (pc : Pc) : Task :=
  {| t_video_id := t_video_id t; t_title := t_title t; t_link := t_link t; t_pc := pc |}.

Definition add_seen (video_id : string) (w : World) : World :=
  {| seen_video_ids := {[video_id]} ∪ seen_video_ids w;
     tasks := tasks w; delivered := delivered w |}.

Definition deliver (channel : Channel) (message : string) (w : World) : World :=
  {| seen_video_ids := seen_video_ids w; tasks := tasks w;
     delivered := delivered w ++ [(channel, message)] |}.

Definition create_task (t : Task) (w : World) : World :=
  {| seen_video_ids := seen_video_ids w; tasks := tasks w ++ [t];
     delivered := delivered w |}.

Definition set_task (i : nat) (t : Task) (w : World) : World :=
  {| seen_video_ids := seen_video_ids w; tasks := <[i:=t]> (tasks w);
     delivered := delivered w |}.

(** ** [announce_video] (lines 112-125)

    One call runs the coroutine from where it stands to its next
    suspension, or to its end. *)

Definition announce_video (env : Env) (t : Task) (w : World)
  : Task * World * list Action :=
  let video_id := t_video_id t in
  let message := announcement (t_title t) (t_link t) in
  match t_pc t with
  | Created =>
      if bool_decide (video_id ∈ seen_video_ids w)
      then (at_pc t Returned, w, [Rejected video_id])
      else
        let w := add_seen video_id w in
        match cached env with
        | Some channel =>
            (at_pc t (AwaitSend channel), w,
             [Added video_id; Lookup video_id; Send video_id channel message])
        | None =>
            (at_pc t AwaitFetch, w,
             [Added video_id; Lookup video_id; Fetch video_id])
        end
  | AwaitFetch =>
      match fetched env with
      | Ok channel =>
          (at_pc t (AwaitSend channel), w, [Send video_id channel message])
      | Raise e => (at_pc t (Raised e), w, [])
      end
  | AwaitSend channel =>
      match sent env with
      | Ok _ => (at_pc t Returned, deliver channel message w, [])
      | Raise e => (at_pc t (Raised e), w, [])
      end
  | Returned | Raised _ => (t, w, [])
  end.

(** ** [websub_post] (lines 138-157) and the event loop *)

Inductive Event : Type :=
| HttpGet (request : Request)
| HttpPost (request : Request)
| Run (i : nat) (env : Env).   (* the loop resumes task [i] *)

Section Server.

Variable WEBSUB_SECRET : string.
(** [raw.decode("utf-8", errors="replace")] *)
Variable decode_utf8_replace : bytes -> string.
Variable ET_fromstring : string -> result Element.

Definition websub_post (request : Request) (w : World)
  : World * result Response :=
  let raw := rq_body request in
  let sig := Multidict.ci_get (rq_headers request) "X-Hub-Signature" "" in
  match _verify_signature WEBSUB_SECRET raw sig with
  | Raise e => (w, Raise e)
  | Ok false => (w, Ok {| status := 403; body := Some "Invalid signature" |})
  | Ok true =>
      let atom_xml := decode_utf8_replace raw in
      match parse_atom_for_video ET_fromstring atom_xml with
      | Raise e => (w, Ok {| status := 500; body := Some "error" |})
      | Ok None => (w, Ok {| status := 204; body := None |})
      | Ok (Some parsed) =>
          (create_task {| t_video_id := v_id parsed; t_title := v_title parsed;
                          t_link := v_link parsed; t_pc := Created |} w,
           Ok {| status := 204; body := None |})
      end
  end.

Definition step (ev : Event) (w : World) : World * list Action :=
  match ev with
  | HttpGet request => (w, [Responded (Ok (websub_get request))])
  | HttpPost request =>
      let '(w, r) := websub_post request w in (w, [Responded r])
  | Run i env =>
      match tasks w !! i with
      | Some t =>
          let '(t, w, acts) := announce_video env t w in (set_task i t w, acts)
      | None => (w, [])
      end
  end.

Fixpoint run (evs : list Event) (w : World) : World * list Action :=
  match evs with
  | [] => (w, [])
  | ev :: evs =>
      let '(w, acts) := step ev w in
      let '(w, acts') := run evs w in
      (w, acts ++ acts')
  end.

End Server.

(** The header [websub_post] reads. *)
Definition signature_of (request : Request) : string :=
  Multidict.ci_get (rq_headers request) "X-Hub-Signature" "".

(** ** Reading a trace *)

Fixpoint count {A : Type} (p : A → bool) (l : list A) : nat :=
  match l with
  | [] => 0%nat
  | a :: l => ((if p a then 1 else 0) + count p l)%nat
  end.

(** The actions taken on behalf of the id [x]. *)
Definition about (x : string) (a : Action) : bool :=
  match a with
  | Rejected v | Added v | Lookup v | Fetch v | Send v _ _ => bool_decide (v = x)
  | Responded _ => false
  end.

Definition is_added (x : string) (a : Action) : bool :=
  match a with Added v => bool_decide (v = x) | _ => false end.
Definition is_rejected (x : string) (a : Action) : bool :=
  match a with Rejected v => bool_decide (v = x) | _ => false end.
Definition is_lookup (x : string) (a : Action) : bool :=
  match a with Lookup v => bool_decide (v = x) | _ => false end.
Definition is_fetch (x : string) (a : Action) : bool :=
  match a with Fetch v => bool_decide (v = x) | _ => false end.
Definition is_send (x : string) (a : Action) : bool :=
  match a with Send v _ _ => bool_decide (v = x) | _ => false end.

Definition view (x : string) (tr : list Action) : list Action :=
  List.filter (about x) tr.

(** The outcomes of the check at lines 116-118 for [x], in order. *)
Definition decisions (x : string) (tr : list Action) : list Action :=
  List.filter (fun a => is_added x a || is_rejected x a) tr.

Definition awaiting_fetch (x : string) (t : Task) : bool :=
  bool_decide (t_video_id t = x)
  && match t_pc t with AwaitFetch => true | _ => false end.

Definition awaiting_send (x : string) (t : Task) : bool :=
  bool_decide (t_video_id t = x)
  && match t_pc t with AwaitSend _ => true | _ => false end.

(** ** The protocol of one id

    What the process does for one id [x], forgetting everything else:
    whether [x] is in the set, and how many coroutines for [x] are
    suspended in the fetch and in the send. *)

Record Protocol := {
  claimed : bool;
  fetching : nat;
  sending : nat
}.

Definition protocol_of (x : string) (w : World) : Protocol :=
  {| claimed := bool_decide (x ∈ seen_video_ids w);
     fetching := count (awaiting_fetch x) (tasks w);
     sending := count (awaiting_send x) (tasks w) |}.

Inductive pstep (x : string) : Protocol → list Action → Protocol → Prop :=
| p_idle s s' :
    claimed s' = claimed s → fetching s' = fetching s → sending s' = sending s →
    pstep x s [] s'
| p_reject s s' :
    claimed s = true →
    claimed s' = claimed s → fetching s' = fetching s → sending s' = sending s →
    pstep x s [Rejected x] s'
| p_accept_send s s' channel message :
    claimed s = false →
    claimed s' = true → fetching s' = fetching s → sending s' = S (sending s) →
    pstep x s [Added x; Lookup x; Send x channel message] s'
| p_accept_fetch s s' :
    claimed s = false →
    claimed s' = true → fetching s' = S (fetching s) → sending s' = sending s →
    pstep x s [Added x; Lookup x; Fetch x] s'
| p_fetched s s' channel message :
    claimed s' = claimed s → fetching s = S (fetching s') → sending s' = S (sending s) →
    pstep x s [Send x channel message] s'
| p_fetch_failed s s' :
    claimed s' = claimed s → fetching s = S (fetching s') → sending s' = sending s →
    pstep x s [] s'
| p_send_ended s s' :
    claimed s' = claimed s → fetching s' = fetching s → sending s = S (sending s') →
    pstep x s [] s'.

Inductive pruns (x : string) : Protocol → list Action → Protocol → Prop :=
| pruns_nil s : pruns x s [] s
| pruns_cons s acts s1 tr s2 :
    pstep x s acts s1 → pruns x s1 tr s2 → pruns x s (acts ++ tr) s2.

Definition b2n (b : bool) : nat := if b then 1%nat else 0%nat.

(** What holds of the protocol state [s] of [x] and of the actions [tr]
    taken for [x] so far. *)
Record PInv (x : string) (s : Protocol) (tr : list Action) : Prop := {
  inv_added : count (is_added x) tr = b2n (claimed s);
  inv_lookup : count (is_lookup x) tr = b2n (claimed s);
  inv_fetch : (count (is_fetch x) tr ≤ b2n (claimed s))%nat;
  inv_send : (count (is_send x) tr + fetching s ≤ b2n (claimed s))%nat;
  inv_awaiting : (fetching s + sending s ≤ b2n (claimed s))%nat;
  inv_decisions :
    ∃ n, decisions x tr
         = if claimed s then Added x :: repeat (Rejected x) n else [];
  inv_next :
    ∀ pre post, tr = pre ++ Added x :: post → ∃ post', post = Lookup x :: post';
  inv_order :
    ∀ pre channel message post,
      tr = pre ++ Send x channel message :: post → Added x ∈ pre
}.

(** ** Sample data *)

Module Sample.

Definition atom (local : string) : string :=
  "{http://www.w3.org/2005/Atom}" +:+ local.
Definition yt (local : string) : string :=
  "{http://www.youtube.com/xml/schemas/2015}" +:+ local.

Definition leaf (t : string) (x : option string) : Element := Elem t ∅ x [].

Definition feed_of (entry_children : list Element) : Element :=
  Elem (atom "feed") ∅ None
    [leaf (atom "title") (Some "YouTube video feed");
     Elem (atom "entry") ∅ None entry_children].

(** An entry with an id, an empty [<title/>] and a link without href. *)
Definition feed_empty_title : Element :=
  feed_of [leaf (yt "videoId") (Some "abc123");
           leaf (atom "title") None;
           Elem (atom "link") {[ "rel" := "alternate" ]} None []].

Definition feed_no_link : Element :=
  feed_of [leaf (yt "videoId") (Some "abc123");
           leaf (atom "title") (Some "Hello")].

Definition feed_v1 : Element :=
  feed_of [leaf (yt "videoId") (Some "v1");
           leaf (atom "title") (Some "Hello");
           Elem (atom "link") {[ "href" := "https://example.com/v1" ]} None []].

Definition feed_no_entry : Element :=
  Elem (atom "feed") ∅ None [leaf (atom "title") (Some "YouTube video feed")].

Definition feed_no_id : Element :=
  feed_of [leaf (atom "title") (Some "Hello")].

Definition feed_empty_id : Element :=
  feed_of [leaf (yt "videoId") None; leaf (atom "title") (Some "Hello")].

Definition doc_empty_title : string :=
  "<feed xmlns='http://www.w3.org/2005/Atom' xmlns:yt='http://www.youtube.com/xml/schemas/2015'><title>YouTube video feed</title><entry><yt:videoId>abc123</yt:videoId><title/><link rel='alternate'/></entry></feed>".
Definition doc_no_link : string :=
  "<feed xmlns='http://www.w3.org/2005/Atom' xmlns:yt='http://www.youtube.com/xml/schemas/2015'><title>YouTube video feed</title><entry><yt:videoId>abc123</yt:videoId><title>Hello</title></entry></feed>".
Definition doc_v1 : string :=
  "<feed xmlns='http://www.w3.org/2005/Atom' xmlns:yt='http://www.youtube.com/xml/schemas/2015'><title>YouTube video feed</title><entry><yt:videoId>v1</yt:videoId><title>Hello</title><link href='https://example.com/v1'/></entry></feed>".
Definition doc_no_entry : string :=
  "<feed xmlns='http://www.w3.org/2005/Atom'><title>YouTube video feed</title></feed>".
Definition doc_no_id : string :=
  "<feed xmlns='http://www.w3.org/2005/Atom'><title>YouTube video feed</title><entry><title>Hello</title></entry></feed>".
Definition doc_empty_id : string :=
  "<feed xmlns='http://www.w3.org/2005/Atom' xmlns:yt='http://www.youtube.com/xml/schemas/2015'><title>YouTube video feed</title><entry><yt:videoId/><title>Hello</title></entry></feed>".

(** What [ET.fromstring] returns on the sample documents; any other
    text is taken as malformed. *)
Definition fromstring (doc : string) : result Element :=
  match ET.assoc_tree doc [(doc_empty_title, feed_empty_title);
                           (doc_no_link, feed_no_link);
                           (doc_v1, feed_v1);
                           (doc_no_entry, feed_no_entry);
                           (doc_no_id, feed_no_id);
                           (doc_empty_id, feed_empty_id)] with
  | Some root => Ok root
  | None => Raise (ParseError "syntax error: line 1, column 0")
  end.

Definition fox : bytes :=
  list_byte_of_string "The quick brown fox jumps over the lazy dog".

Definition fox_sig : string := "de7c9b85b8b78aa6bc8a7a36f70a90701c9db4d9".

Definition post (signature : string) : Request :=
  {| rq_body := fox;
     rq_headers := [("Content-Type", "application/atom+xml");
                    ("X-Hub-Signature", signature)];
     rq_query := [] |}.

(** A signed push of [doc_v1] under the secret "key". *)
Definition post_v1 : Request :=
  {| rq_body := list_byte_of_string doc_v1;
     rq_headers := [("Content-Type", "application/atom+xml");
                    ("X-Hub-Signature", "sha1=2c70d3949fa41619ccb1cdfb23d0f8363084e6dd")];
     rq_query := [] |}.

(** [bytes.decode] on the sample bodies, which are ASCII. *)
Definition decode (raw : bytes) : string := string_of_list_byte raw.

Definition task_v1 (pc : Pc) : Task :=
  {| t_video_id := "v1"; t_title := Some "Hello";
     t_link := Some "https://example.com/v1"; t_pc := pc |}.

Definition get (query : list (string * string)) : Request :=
  {| rq_body := []; rq_headers := []; rq_query := query |}.

Definition e_acute : string := String (ascii_of_N 233) EmptyString.

Definition general : Channel := {| channel_id := 42 |}.

Definition discord_up : Env :=
  {| cached := None; fetched := Ok general; sent := Ok tt |}.

Definition discord_down : Env :=
  {| cached := None;
     fetched := Raise (DiscordException "404 Not Found");
     sent := Raise (DiscordException "503 Service Unavailable") |}.

Definition hub_says (st : Z) (t : string) : ClientSession :=
  {| posted := [];
     hub := fun _ _ => Ok {| resp_status := st; resp_text := Ok t |} |}.

End Sample.

(** ** The rest of the module: [on_message], [resubscribe_loop], [on_ready] *)

Module PyStr.

(** [str.lower] on one code point below 256: the ASCII capitals, and the
    Latin-1 capitals 192-222 but for the multiplication sign 215. *)
Definition lower_char (c : ascii) : ascii :=
  let n := N_of_ascii c in
  if ((65 <=? n) && (n <=? 90)
      || (192 <=? n) && (n <=? 222) && negb (n =? 215))%N
  then ascii_of_N (n + 32) else c.

Fixpoint lower (s : string) : string :=
  match s with
  | EmptyString => EmptyString
  | String c s' => String (lower_char c) (lower s')
  end.

(** [needle in hay] *)
Fixpoint contains (needle hay : string) : bool :=
  String.prefix needle hay
  || match hay with
     | EmptyString => false
     | String _ hay' => contains needle hay'
     end.

End PyStr.

(** A Discord user, compared by id as discord.py does. *)
Record User := {
  user_id : Z;
  mention : string
}.

Record Message := {
  author : User;
  content : string;
  channel : Channel
}.

(** The calls [on_message] makes, in order. *)
Inductive BotCall : Type :=
| DeleteMessage
| SendText (to : Channel) (text : string)
| ProcessCommands.

(** What Discord answers to them. *)
Record Answers := {
  deleted : result unit;
  replied : result unit;
  processed : result unit
}.

(** [on_message] (lines 198-207) *)
Definition on_message (bot_user : User) (ans : Answers) (message : Message)
  : list BotCall * result unit :=
  if (user_id (author message) =? user_id bot_user)%Z then ([], Ok tt)
  else if PyStr.contains "test message" (PyStr.lower (content message)) then
    match deleted ans with
    | Raise e => ([DeleteMessage], Raise e)
    | Ok _ =>
        let reply :=
          SendText (channel message) (mention (author message) +:+ " - Trigger hit") in
        match replied ans with
        | Raise e => ([DeleteMessage; reply], Raise e)
        | Ok _ => ([DeleteMessage; reply; ProcessCommands], processed ans)
        end
    end
  else ([ProcessCommands], processed ans).

Section Lifecycle.

Variables TOPIC_URL CALLBACK_URL WEBSUB_SECRET : string.

(** [resubscribe_loop] (lines 185-193): [turns] wake-ups of the endless
    loop.  Each turn subscribes once; an exception is caught and reported,
    and the loop goes on.  The session stands for the traffic to the hub,
    the list for the exceptions reported so far. *)
Fixpoint resubscribe_loop (turns : nat) (net : ClientSession) (failures : list exn)
  : ClientSession * list exn :=
  match turns with
  | O => (net, failures)
  | S turns' =>
      let '(net, r) := subscribe_websub TOPIC_URL CALLBACK_URL WEBSUB_SECRET net in
      match r with
      | Ok _ => resubscribe_loop turns' net failures
      | Raise e => resubscribe_loop turns' net (failures ++ [e])
      end
  end.

Record Startup := {
  web_server_started : bool;
  renewal_scheduled : bool;
  traffic : ClientSession
}.

(** [on_ready] (lines 174-195): start the web server, subscribe, then
    schedule the renewal loop.  Neither call is guarded, so an exception
    ends the handler on the spot. *)
Definition on_ready (start_web_server : result unit) (net : ClientSession)
  : Startup * result unit :=
  match start_web_server with
  | Raise e =>
      ({| web_server_started := false; renewal_scheduled := false; traffic := net |},
       Raise e)
  | Ok _ =>
      let '(net, r) := subscribe_websub TOPIC_URL CALLBACK_URL WEBSUB_SECRET net in
      match r with
      | Raise e =>
          ({| web_server_started := true; renewal_scheduled := false; traffic := net |},
           Raise e)
      | Ok _ =>
          ({| web_server_started := true; renewal_scheduled := true; traffic := net |},
           Ok tt)
      end
  end.

End Lifecycle.

(** [websub_post] from its first line.  [raw = await request.read()]
    (line 139) stands before the [try]: when reading the body raises (as
    aiohttp does above its size limit), the exception leaves the handler
    and nothing else is done. *)
Record Incoming := {
  in_read : result bytes;
  in_headers : list (string * string);
  in_query : list (string * string)
}.

Definition websub_post_from_read (WEBSUB_SECRET : string)
    (decode_utf8_replace : bytes → string) (ET_fromstring : string → result Element)
    (incoming : Incoming) (w : World) : World * result Response :=
  match in_read incoming with
  | Raise e => (w, Raise e)
  | Ok raw =>
      websub_post WEBSUB_SECRET decode_utf8_replace ET_fromstring
        {| rq_body := raw; rq_headers := in_headers incoming;
           rq_query := in_query incoming |} w
  end.

(** A coroutine suspended in the fetch or in the send. *)
Definition in_flight (t : Task) : bool :=
  match t_pc t with
  | AwaitFetch | AwaitSend _ => true
  | _ => false
  end.

(** A coroutine that has ended. *)
Definition finished (t : Task) : Prop :=
  t_pc t = Returned ∨ ∃ e, t_pc t = Raised e.

(** [w'] is [w] grown: more ids seen, more tasks, more messages, the old
    tasks at their places with their arguments, the ended ones untouched. *)
Definition extends (w w' : World) : Prop :=
  seen_video_ids w ⊆ seen_video_ids w'
  ∧ delivered w `prefix_of` delivered w'
  ∧ ∀ i t, tasks w !! i = Some t →
      ∃ t', tasks w' !! i = Some t'
            ∧ t_video_id t' = t_video_id t ∧ t_title t' = t_title t
            ∧ t_link t' = t_link t ∧ (finished t → t' = t).

Module Scenario.

Definition bot_user : User := {| user_id := 1; mention := "<@1>" |}.
Definition alice : User := {| user_id := 2; mention := "<@2>" |}.

Definition says (who : User) (what : string) : Message :=
  {| author := who; content := what; channel := Sample.general |}.

Definition all_fine : Answers :=
  {| deleted := Ok tt; replied := Ok tt; processed := Ok tt |}.

Definition cannot_delete : Answers :=
  {| deleted := Raise (DiscordException "403 Forbidden");
     replied := Ok tt; processed := Ok tt |}.

(** A hub that refuses the first request and accepts the following ones. *)
Definition moody_hub : ClientSession :=
  {| posted := [];
     hub := fun n _ =>
       match n with
       | O => Ok {| resp_status := 503; resp_text := Ok "busy" |}
       | S _ => Ok {| resp_status := 202; resp_text := Ok "" |}
       end |}.

(** A hub whose answer cannot be read. *)
Definition garbled_hub : ClientSession :=
  {| posted := [];
     hub := fun _ _ =>
       Ok {| resp_status := 200;
             resp_text := Raise (ClientError "Response payload is not completed") |} |}.

Definition unreachable_hub : ClientSession :=
  {| posted := [];
     hub := fun _ _ => Raise (ClientError "Cannot connect to host") |}.

Definition feed_two_entries : Element :=
  Elem (Sample.atom "feed") ∅ None
    [Sample.leaf (Sample.atom "title") (Some "YouTube video feed");
     Elem (Sample.atom "entry") ∅ None
       [Sample.leaf (Sample.yt "videoId") (Some "v1");
        Sample.leaf (Sample.atom "title") (Some "Hello");
        Elem (Sample.atom "link") {[ "href" := "https://example.com/v1" ]} None []];
     Elem (Sample.atom "entry") ∅ None
       [Sample.leaf (Sample.yt "videoId") (Some "v2");
        Sample.leaf (Sample.atom "title") (Some "World")]].

Definition entry_v1 : Element :=
  Elem (Sample.atom "entry") ∅ None
    [Sample.leaf (Sample.yt "videoId") (Some "v1");
     Sample.leaf (Sample.atom "title") (Some "Hello");
     Elem (Sample.atom "link") {[ "href" := "https://example.com/v1" ]} None []].

Definition feed_only_entry : Element :=
  Elem (Sample.atom "feed") ∅ None [entry_v1].

Definition feed_untitled : Element :=
  Sample.feed_of [Sample.leaf (Sample.yt "videoId") (Some "v3")].

Definition doc_two_entries : string :=
  "<feed xmlns='http://www.w3.org/2005/Atom' xmlns:yt='http://www.youtube.com/xml/schemas/2015'><title>YouTube video feed</title><entry><yt:videoId>v1</yt:videoId><title>Hello</title><link href='https://example.com/v1'/></entry><entry><yt:videoId>v2</yt:videoId><title>World</title></entry></feed>".
Definition doc_only_entry : string :=
  "<feed xmlns='http://www.w3.org/2005/Atom' xmlns:yt='http://www.youtube.com/xml/schemas/2015'><entry><yt:videoId>v1</yt:videoId><title>Hello</title><link href='https://example.com/v1'/></entry></feed>".
Definition doc_untitled : string :=
  "<feed xmlns='http://www.w3.org/2005/Atom' xmlns:yt='http://www.youtube.com/xml/schemas/2015'><title>YouTube video feed</title><entry><yt:videoId>v3</yt:videoId></entry></feed>".

(** What [ET.fromstring] returns on these documents. *)
Definition fromstring (doc : string) : result Element :=
  match ET.assoc_tree doc [(doc_two_entries, feed_two_entries);
                           (doc_only_entry, feed_only_entry);
                           (doc_untitled, feed_untitled)] with
  | Some root => Ok root
  | None => Raise (ParseError "syntax error: line 1, column 0")
  end.

End Scenario.

(** * Properties *)

(** ** The hash functions agree with the published test vectors
    (FIPS 180 for SHA-1, RFC 2202 for HMAC-SHA1) *)

Example sha1_abc :
  Hmac.hex (Sha1.digest (list_byte_of_string "abc"))
  = "a9993e364706816aba3e25717850c26c9cd0d89d".
Proof. vm_compute. reflexivity. Qed.

Example sha1_empty :
  Hmac.hex (Sha1.digest []) = "da39a3ee5e6b4b0d3255bfef95601890afd80709".
Proof. vm_compute. reflexivity. Qed.

Example sha1_two_blocks :
  Hmac.hex (Sha1.digest (list_byte_of_string
    "abcdbcdecdefdefgefghfghighijhijkijkljklmklmnlmnomnopnopq"))
  = "84983e441c3bd26ebaae4aa1f95129e5e54670f1".
Proof. vm_compute. reflexivity. Qed.

Example hmac_sha1_rfc2202_2 :
  Hmac.hexdigest (list_byte_of_string "Jefe")
                 (list_byte_of_string "what do ya want for nothing?")
  = "effcdf6ae5eb2fa2d27416d5f184df9c259a7c79".
Proof. vm_compute. reflexivity. Qed.

Example hmac_sha1_rfc2202_6 :
  Hmac.hexdigest (repeat xaa 80)
                 (list_byte_of_string
                    "Test Using Larger Than Block-Size Key - Hash Key First")
  = "aa4ae5e15272d00e95705637ce8a3b55ed402112".
Proof. vm_compute. reflexivity. Qed.


(** ** Strings *)

Lemma truthy_true (s : string) : Str.truthy s = true ↔ s ≠ "".
Proof. destruct s; simpl; split; congruence. Qed.

Lemma truthy_false (s : string) : Str.truthy s = false ↔ s = "".
Proof. destruct s; simpl; split; congruence. Qed.

Lemma startswith_app (p s : string) :
  Str.startswith s p = true ↔ ∃ rest, s = p +:+ rest.
Proof.
  unfold Str.startswith. revert s.
  induction p as [|c p IH]; intros s; simpl.
  - destruct s; split; eauto.
  - destruct s as [|d s]; simpl.
    + split; [discriminate | intros [rest H]; discriminate].
    + destruct (ascii_dec c d) as [->|Hne].
      * rewrite IH. split; intros [rest H]; exists rest.
        -- by rewrite H.
        -- by injection H.
      * split; [discriminate | intros [rest H]; by injection H].
Qed.

Lemma append_inv_head (p a b : string) : p +:+ a = p +:+ b → a = b.
Proof.
  induction p as [|c p IH]; intros H; [exact H|].
  injection H as H. auto.
Qed.

Lemma split_once_sha1 (rest : string) :
  Str.split_once "="%char ("sha1=" +:+ rest) = ["sha1"; rest].
Proof. reflexivity. Qed.

Lemma hexdigit_ascii (n : N) : (n < 16)%N → Str.isascii_char (Hmac.hexdigit n) = true.
Proof.
  intros Hn.
  assert (H : ∀ k : nat, (k < 16)%nat →
              Str.isascii_char (Hmac.hexdigit (N.of_nat k)) = true).
  { intros k Hk. do 16 (destruct k as [|k]; [reflexivity|]). lia. }
  rewrite <- (N2Nat.id n). apply H. lia.
Qed.

Lemma isascii_hex (bs : bytes) : Str.isascii (Hmac.hex bs) = true.
Proof.
  unfold Hmac.hex. induction bs as [|b bs IH]; [reflexivity|].
  cbn [map concat Hmac.hex_of_byte app string_of_list_ascii Str.isascii].
  rewrite IH.
  assert (Byte.to_N b < 256)%N by (pose proof (Byte.to_N_bounded b); lia).
  rewrite !hexdigit_ascii; [reflexivity| |].
  - apply N.mod_lt. lia.
  - apply N.Div0.div_lt_upper_bound. lia.
Qed.

Lemma compare_digest_ascii (a b : string) :
  Str.isascii a = true → (compare_digest a b = Ok true ↔ a = b).
Proof.
  intros Ha. unfold compare_digest. rewrite Ha. simpl.
  destruct (Str.isascii b) eqn:Hb.
  - split.
    + intros [= H]. by apply String.eqb_eq.
    + intros ->. by rewrite String.eqb_refl.
  - split; [discriminate|]. intros ->. congruence.
Qed.

(** ** [_verify_signature] *)

Lemma verify_signature_no_secret (B : bytes) (header : string) :
  _verify_signature "" B header = Ok true.
Proof. reflexivity. Qed.

(** C2, as stated, fails: with secret "key" the header made of "sha1=",
    the right digest and one trailing space is accepted, although it is
    not "sha1=" followed by the digest. *)
Lemma verify_signature_accepts_padded_digest :
  let header := "sha1=de7c9b85b8b78aa6bc8a7a36f70a90701c9db4d9 " in
  "key" ≠ ""
  ∧ _verify_signature "key" Sample.fox header = Ok true
  ∧ header ≠ "sha1=" +:+ Hmac.hexdigest (Str.encode_utf8 "key") Sample.fox.
Proof.
  cbv zeta. split; [discriminate|]. split.
  - vm_compute. reflexivity.
  - vm_compute. discriminate.
Qed.

(** C2 (amended): under a non-empty secret, [_verify_signature] succeeds
    exactly when the header is "sha1=" followed by a text which, once the
    whitespace around it is stripped, is the lowercase hex HMAC-SHA1 of the
    body keyed by the secret. *)
Theorem verify_signature_iff_stripped (secret : string) (B : bytes) (header : string) :
  secret ≠ "" →
  _verify_signature secret B header = Ok true
  ↔ ∃ digest, header = "sha1=" +:+ digest
      ∧ Str.strip digest = Hmac.hexdigest (Str.encode_utf8 secret) B.
Proof.
  intros Hs. apply truthy_true in Hs.
  unfold _verify_signature. rewrite Hs. cbn [negb].
  destruct (Str.startswith header "sha1=") eqn:Hp.
  - apply startswith_app in Hp as [rest ->].
    change (Str.truthy ("sha1=" +:+ rest)) with true.
    cbn [negb orb]. rewrite split_once_sha1. cbn [lookup list_lookup].
    rewrite compare_digest_ascii by apply isascii_hex.
    split.
    + intros H. exists rest. by split.
    + intros (digest & Heq & Hd).
      by apply append_inv_head in Heq as ->.
  - rewrite orb_true_r. split; [discriminate|].
    intros (digest & -> & _).
    assert (Str.startswith ("sha1=" +:+ digest) "sha1=" = true)
      by (apply startswith_app; eauto).
    congruence.
Qed.

Lemma verify_signature_iff_stripped_witness :
  "key" ≠ "" ∧
  (_verify_signature "key" Sample.fox ("sha1= " +:+ Sample.fox_sig) = Ok true
   ↔ ∃ digest, "sha1= " +:+ Sample.fox_sig = "sha1=" +:+ digest
       ∧ Str.strip digest = Hmac.hexdigest (Str.encode_utf8 "key") Sample.fox).
Proof.
  split; [discriminate|].
  apply (verify_signature_iff_stripped "key" Sample.fox ("sha1= " +:+ Sample.fox_sig)).
  discriminate.
Defined.

(** ** [parse_atom_for_video] *)

Lemma find_tag_none (t : string) (l : list Element) :
  (∀ el, el ∈ l → tag el ≠ t) →
  List.find (fun c => String.eqb (tag c) t) l = None.
Proof.
  induction l as [|c l IH]; intros H; [reflexivity|].
  simpl. destruct (String.eqb_spec (tag c) t) as [Heq|_].
  - exfalso. apply (H c); [left | done].
  - apply IH. intros el Hel. apply H. by right.
Qed.

Lemma self_in_iter (el : Element) : el ∈ ET.iter el.
Proof. destruct el. left. Qed.

Lemma child_in_iter (el c : Element) : c ∈ children el → c ∈ ET.iter el.
Proof.
  destruct el as [t a x cs]. simpl. intros Hc. right.
  apply list_elem_of_In, in_flat_map. exists c. split.
  - by apply list_elem_of_In.
  - apply list_elem_of_In, self_in_iter.
Qed.

Section ParseProperties.

Variable fromstring : string → result Element.

(** C5: a well-formed document with no entry element anywhere, or whose
    entry has no videoId child, parses to [None], without raising. *)
Theorem parse_absent (doc : string) (root : Element) :
  fromstring doc = Ok root →
  (∀ el, el ∈ ET.iter root → tag el ≠ "{http://www.w3.org/2005/Atom}entry")
  ∨ (∃ entry, ET.find root "atom:entry" ns = Some entry
       ∧ ∀ el, el ∈ children entry →
               tag el ≠ "{http://www.youtube.com/xml/schemas/2015}videoId") →
  parse_atom_for_video fromstring doc = Ok None.
Proof.
  intros Hroot H. unfold parse_atom_for_video. rewrite Hroot. cbn [mbind result_bind].
  destruct H as [Hno | (entry & Hentry & Hno)].
  - unfold ET.find at 1.
    rewrite find_tag_none; [done|].
    intros el Hel. apply Hno. by apply child_in_iter.
  - rewrite Hentry.
    assert (ET.find entry "yt:videoId" ns = None) as ->
      by (by apply find_tag_none).
    done.
Qed.

(** C6: when the entry's video id is "abc123" and there is no link
    element, or the link element has no href, the returned link is the
    watch URL of that id. *)
Theorem parse_link_from_id (doc : string) (root entry id_el : Element) :
  fromstring doc = Ok root →
  ET.find root "atom:entry" ns = Some entry →
  ET.find entry "yt:videoId" ns = Some id_el →
  text id_el = Some "abc123" →
  (ET.find entry "atom:link" ns = None
   ∨ ∃ link_el, ET.find entry "atom:link" ns = Some link_el
                ∧ attrib link_el !! "href" = None) →
  ∃ title,
    parse_atom_for_video fromstring doc
    = Ok (Some {| v_id := "abc123"; v_title := title;
                  v_link := Some "https://www.youtube.com/watch?v=abc123" |}).
Proof.
  intros Hroot Hentry Hid Htext Hlink.
  unfold parse_atom_for_video. rewrite Hroot. cbn [mbind result_bind].
  rewrite Hentry, Hid, Htext.
  destruct Hlink as [-> | (link_el & -> & ->)]; eexists; reflexivity.
Qed.

(** The same for any non-empty id. *)
Lemma parse_link_template (doc : string) (root entry id_el : Element) (vid : string) :
  fromstring doc = Ok root →
  ET.find root "atom:entry" ns = Some entry →
  ET.find entry "yt:videoId" ns = Some id_el →
  text id_el = Some vid → vid ≠ "" →
  (ET.find entry "atom:link" ns = None
   ∨ ∃ link_el, ET.find entry "atom:link" ns = Some link_el
                ∧ attrib link_el !! "href" = None) →
  ∃ title,
    parse_atom_for_video fromstring doc
    = Ok (Some {| v_id := vid; v_title := title; v_link := Some (watch_url vid) |}).
Proof.
  intros Hroot Hentry Hid Htext Hvid Hlink. apply truthy_true in Hvid.
  unfold parse_atom_for_video. rewrite Hroot. cbn [mbind result_bind].
  rewrite Hentry, Hid, Htext.
  destruct Hlink as [-> | (link_el & -> & ->)];
    cbn [truthy_opt negb andb]; rewrite Hvid; eexists; reflexivity.
Qed.

(** C10: a videoId element with no text, or with empty text, parses to
    [None], as a missing one does. *)
Theorem parse_empty_id_absent (doc : string) (root entry id_el : Element) :
  fromstring doc = Ok root →
  ET.find root "atom:entry" ns = Some entry →
  ET.find entry "yt:videoId" ns = Some id_el →
  text id_el = None ∨ text id_el = Some "" →
  parse_atom_for_video fromstring doc = Ok None.
Proof.
  intros Hroot Hentry Hid Htext.
  unfold parse_atom_for_video. rewrite Hroot. cbn [mbind result_bind].
  rewrite Hentry, Hid.
  destruct Htext as [-> | ->]; [done|].
  destruct (ET.find entry "atom:link" ns) as [l|]; [|done].
  by destruct (attrib l !! "href").
Qed.

(** X6: Whatever is returned carries a non-empty id and a non-empty link. *)
Lemma parse_some_id_link (doc : string) (v : Video) :
  parse_atom_for_video fromstring doc = Ok (Some v) →
  v_id v ≠ "" ∧ ∃ link, v_link v = Some link ∧ link ≠ "".
Proof.
  unfold parse_atom_for_video.
  destruct (fromstring doc) as [root|]; [|discriminate]. cbn [mbind result_bind].
  destruct (ET.find root "atom:entry" ns) as [entry|]; [|discriminate].
  destruct (ET.find entry "yt:videoId" ns) as [id_el|]; [|discriminate].
  destruct (text id_el) as [vid|]; [|discriminate].
  destruct (Str.truthy vid) eqn:Hvid; [|discriminate].
  cbn [negb andb]. rewrite andb_true_r.
  intros [= <-]. cbn [v_id v_link]. split; [by apply truthy_true|].
  match goal with |- context [truthy_opt ?l] => destruct (truthy_opt l) eqn:Hl end;
    cbn [negb].
  - match type of Hl with truthy_opt ?l = _ => destruct l as [link|] end;
      [|discriminate].
    exists link. split; [done|]. by apply truthy_true.
  - eexists. split; [reflexivity|]. discriminate.
Qed.

(** X7: With no title element the placeholder is returned. *)
Lemma parse_title_placeholder (doc : string) (root entry : Element) (v : Video) :
  fromstring doc = Ok root →
  ET.find root "atom:entry" ns = Some entry →
  ET.find entry "atom:title" ns = None →
  parse_atom_for_video fromstring doc = Ok (Some v) →
  v_title v = Some "(no title)".
Proof.
  intros Hroot Hentry Htitle.
  unfold parse_atom_for_video. rewrite Hroot. cbn [mbind result_bind].
  rewrite Hentry, Htitle.
  destruct (ET.find entry "yt:videoId" ns) as [id_el|]; [|discriminate].
  destruct (text id_el) as [vid|]; [|discriminate].
  destruct (Str.truthy vid); [|discriminate].
  cbn [negb]. by intros [= <-].
Qed.

End ParseProperties.


Lemma parse_absent_witness :
  (Sample.fromstring Sample.doc_no_entry = Ok Sample.feed_no_entry
   ∧ (∀ el, el ∈ ET.iter Sample.feed_no_entry →
            tag el ≠ "{http://www.w3.org/2005/Atom}entry")
   ∧ parse_atom_for_video Sample.fromstring Sample.doc_no_entry = Ok None)
  ∧ (Sample.fromstring Sample.doc_no_id = Ok Sample.feed_no_id
     ∧ parse_atom_for_video Sample.fromstring Sample.doc_no_id = Ok None).
Proof.
  assert (Hno : ∀ el, el ∈ ET.iter Sample.feed_no_entry →
                      tag el ≠ "{http://www.w3.org/2005/Atom}entry").
  { intros el Hel. vm_compute in Hel.
    repeat (apply elem_of_cons in Hel as [-> | Hel]); try discriminate.
    by apply elem_of_nil in Hel. }
  split; [split; [reflexivity | split; [exact Hno|]] | split; [reflexivity|]].
  - apply (parse_absent Sample.fromstring Sample.doc_no_entry Sample.feed_no_entry);
      [reflexivity | left; exact Hno].
  - apply (parse_absent Sample.fromstring Sample.doc_no_id Sample.feed_no_id);
      [reflexivity | right].
    eexists. split; [reflexivity|].
    intros el Hel. vm_compute in Hel.
    repeat (apply elem_of_cons in Hel as [-> | Hel]); try discriminate.
    by apply elem_of_nil in Hel.
Defined.

Lemma parse_link_from_id_witness :
  (Sample.fromstring Sample.doc_no_link = Ok Sample.feed_no_link
   ∧ ∃ title,
       parse_atom_for_video Sample.fromstring Sample.doc_no_link
       = Ok (Some {| v_id := "abc123"; v_title := title;
                     v_link := Some "https://www.youtube.com/watch?v=abc123" |}))
  ∧ (Sample.fromstring Sample.doc_empty_title = Ok Sample.feed_empty_title
     ∧ ∃ title,
         parse_atom_for_video Sample.fromstring Sample.doc_empty_title
         = Ok (Some {| v_id := "abc123"; v_title := title;
                       v_link := Some "https://www.youtube.com/watch?v=abc123" |})).
Proof.
  split; (split; [reflexivity|]).
  - eapply (parse_link_from_id Sample.fromstring Sample.doc_no_link Sample.feed_no_link).
    + reflexivity.
    + reflexivity.
    + reflexivity.
    + reflexivity.
    + left. reflexivity.
  - eapply (parse_link_from_id Sample.fromstring Sample.doc_empty_title
              Sample.feed_empty_title).
    + reflexivity.
    + reflexivity.
    + reflexivity.
    + reflexivity.
    + right. eexists. split; reflexivity.
Defined.

Lemma parse_empty_id_absent_witness :
  Sample.fromstring Sample.doc_empty_id = Ok Sample.feed_empty_id
  ∧ parse_atom_for_video Sample.fromstring Sample.doc_empty_id = Ok None.
Proof.
  split; [reflexivity|].
  eapply (parse_empty_id_absent Sample.fromstring Sample.doc_empty_id
            Sample.feed_empty_id).
  - reflexivity.
  - reflexivity.
  - reflexivity.
  - left. reflexivity.
Defined.

(** C7 fails on an entry whose title element is empty: [<title/>] is
    found, its text is [None], and [None] is returned as the title; the
    placeholder is not substituted. *)
Lemma parse_empty_title_returns_None :
  Sample.fromstring Sample.doc_empty_title = Ok Sample.feed_empty_title
  ∧ parse_atom_for_video Sample.fromstring Sample.doc_empty_title
    = Ok (Some {| v_id := "abc123"; v_title := None;
                  v_link := Some "https://www.youtube.com/watch?v=abc123" |})
  ∧ announcement None (Some "https://www.youtube.com/watch?v=abc123")
    = "📢 **New upload:** None" +:+ newline +:+ "https://www.youtube.com/watch?v=abc123".
Proof. split; [|split]; reflexivity. Qed.

(** ** [websub_get] *)

(** C8, as stated, fails: with [?hub.challenge=] the parameter is present
    and empty, and the body is "ok", not the (empty) token. *)
Lemma websub_get_empty_challenge :
  let request := Sample.get [("hub.challenge", "")] in
  Multidict.get (rq_query request) "hub.challenge" = Some ""
  ∧ websub_get request = {| status := 200; body := Some "ok" |}
  ∧ websub_get request ≠ {| status := 200; body := Some "" |}.
Proof. cbv zeta. split; [|split]; [reflexivity | reflexivity | discriminate]. Qed.

(** C8 (amended): the response is always 200; a present, non-empty
    hub.challenge is echoed verbatim, and an absent or empty one is
    answered "ok". *)
Theorem websub_get_response (request : Request) :
  (∀ token, Multidict.get (rq_query request) "hub.challenge" = Some token →
            token ≠ "" →
            websub_get request = {| status := 200; body := Some token |})
  ∧ (Multidict.get (rq_query request) "hub.challenge" = None
     ∨ Multidict.get (rq_query request) "hub.challenge" = Some "" →
     websub_get request = {| status := 200; body := Some "ok" |}).
Proof.
  unfold websub_get. split.
  - intros token -> Htoken. apply truthy_true in Htoken.
    cbn [truthy_opt default]. by rewrite Htoken.
  - by intros [-> | ->].
Qed.

Lemma websub_get_response_witness :
  (Multidict.get (rq_query (Sample.get [("hub.challenge", "xyz789")])) "hub.challenge"
   = Some "xyz789"
   ∧ "xyz789" ≠ ""
   ∧ websub_get (Sample.get [("hub.challenge", "xyz789")])
     = {| status := 200; body := Some "xyz789" |})
  ∧ (Multidict.get (rq_query (Sample.get [])) "hub.challenge" = None
     ∧ websub_get (Sample.get []) = {| status := 200; body := Some "ok" |}).
Proof.
  split.
  - split; [reflexivity | split; [discriminate|]].
    apply (proj1 (websub_get_response (Sample.get [("hub.challenge", "xyz789")])));
      [reflexivity | discriminate].
  - split; [reflexivity|].
    apply (proj2 (websub_get_response (Sample.get []))). left. reflexivity.
Defined.

(** ** [subscribe_websub] *)

Lemma accepted_statuses_iff (st : Z) :
  st ∈ accepted_statuses ↔ st = 200 ∨ st = 202 ∨ st = 204.
Proof.
  unfold accepted_statuses. rewrite !elem_of_cons, elem_of_nil. tauto.
Qed.

(** C9, as stated, fails: the body of the answer is read (line 72) before
    the status is tested (line 73).  A hub that answers 200 with a body
    that cannot be read makes the call raise; and one that answers 500
    that way makes it raise that exception, not [RuntimeError]. *)
Lemma subscribe_websub_unreadable_answer :
  let request := {| req_url := HUB_URL;
                    req_data := subscribe_data "topic" "callback" "key" |} in
  let answers (st : Z) : ClientSession :=
    {| posted := [];
       hub := fun _ _ =>
         Ok {| resp_status := st;
               resp_text := Raise (ClientError "Response payload is not completed") |} |} in
  (∃ resp, hub (answers 200) 0 request = Ok resp ∧ resp_status resp = 200)
  ∧ (subscribe_websub "topic" "callback" "key" (answers 200)).2 ≠ Ok tt
  ∧ (∃ resp, hub (answers 500) 0 request = Ok resp ∧ resp_status resp = 500)
  ∧ (subscribe_websub "topic" "callback" "key" (answers 500)).2
    = Raise (ClientError "Response payload is not completed")
  ∧ ∀ msg, (subscribe_websub "topic" "callback" "key" (answers 500)).2
           ≠ Raise (RuntimeError msg).
Proof.
  cbv zeta. split; [eexists; split; reflexivity|].
  split; [discriminate|]. split; [eexists; split; reflexivity|].
  split; [reflexivity|]. discriminate.
Qed.

(** C9 (amended): the call returns normally exactly when the hub answers
    with status 200, 202 or 204 and the body of the answer can be read;
    when the body is read and the status is any other, it raises
    [RuntimeError]; when the body cannot be read it raises that exception,
    whatever the status; in every case exactly one request has been
    posted. *)
Theorem subscribe_websub_outcome (topic callback secret : string)
    (session : ClientSession) :
  let request := {| req_url := HUB_URL;
                    req_data := subscribe_data topic callback secret |} in
  let answer := hub session (length (posted session)) request in
  let out := subscribe_websub topic callback secret session in
  (out.2 = Ok tt
   ↔ ∃ resp txt, answer = Ok resp ∧ resp_text resp = Ok txt
                 ∧ (resp_status resp = 200 ∨ resp_status resp = 202
                    ∨ resp_status resp = 204))
  ∧ (∀ resp txt, answer = Ok resp → resp_text resp = Ok txt →
       ¬ (resp_status resp = 200 ∨ resp_status resp = 202 ∨ resp_status resp = 204) →
       out.2 = Raise (RuntimeError ("WebSub subscribe failed: "
                                    +:+ Str.of_Z (resp_status resp) +:+ " " +:+ txt)))
  ∧ (∀ resp e, answer = Ok resp → resp_text resp = Raise e → out.2 = Raise e)
  ∧ posted out.1 = posted session ++ [request].
Proof.
  intros request answer out. subst out answer.
  unfold subscribe_websub, session_post. cbn [fst snd posted]. fold request.
  destruct (hub session (length (posted session)) request) as [resp|e0];
    cbn [mbind result_bind].
  - destruct (resp_text resp) as [txt|e1] eqn:Htxt; cbn [mbind result_bind].
    + case_bool_decide as Hst; rewrite accepted_statuses_iff in Hst.
      * split; [|split; [|split; [|reflexivity]]].
        -- split; [intros _; by exists resp, txt | done].
        -- intros resp' txt' [= <-] _ Hno. done.
        -- intros resp' e [= <-]. congruence.
      * split; [|split; [|split; [|reflexivity]]].
        -- split; [discriminate|]. intros (resp' & txt' & [= <-] & _ & Hyes). done.
        -- intros resp' txt' [= <-] Htxt' _. congruence.
        -- intros resp' e [= <-]. congruence.
    + split; [|split; [|split; [|reflexivity]]].
      * split; [discriminate|]. intros (resp' & txt' & [= <-] & ? & _). congruence.
      * intros resp' txt' [= <-]. congruence.
      * intros resp' e [= <-]. congruence.
  - split; [|split; [|split; [|reflexivity]]].
    + split; [discriminate|]. intros (resp' & txt' & ? & _). discriminate.
    + intros resp' txt' ?. discriminate.
    + intros resp' e ?. discriminate.
Qed.

Lemma subscribe_websub_outcome_witness :
  let refused := subscribe_websub "topic" "callback" "key" (Sample.hub_says 500 "boom") in
  let accepted := subscribe_websub "topic" "callback" "key" (Sample.hub_says 202 "") in
  ¬ (500 = 200 ∨ 500 = 202 ∨ 500 = 204)
  ∧ refused.2 = Raise (RuntimeError "WebSub subscribe failed: 500 boom")
  ∧ length (posted refused.1) = 1%nat
  ∧ accepted.2 = Ok tt
  ∧ length (posted accepted.1) = 1%nat.
Proof.
  cbv zeta.
  pose proof (subscribe_websub_outcome "topic" "callback" "key"
                (Sample.hub_says 500 "boom")) as (_ & Hrefused & _ & Hposted).
  pose proof (subscribe_websub_outcome "topic" "callback" "key"
                (Sample.hub_says 202 "")) as (Haccepted & _ & _ & Hposted').
  assert (Hno : ¬ (500 = 200 ∨ 500 = 202 ∨ 500 = 204)) by lia.
  split; [exact Hno|]. split.
  - exact (Hrefused {| resp_status := 500; resp_text := Ok "boom" |} "boom"
             eq_refl eq_refl Hno).
  - split; [by rewrite Hposted|]. split; [|by rewrite Hposted'].
    apply Haccepted. exists {| resp_status := 202; resp_text := Ok "" |}, "".
    split; [reflexivity|]. split; [reflexivity|]. right. by left.
Defined.

(** ** [websub_post] *)

Section PostProperties.

Variable secret : string.
Variable decode : bytes → string.
Variable fromstring : string → result Element.

(** When the check returns [False] the answer is 403 and the world is
    left as it was: nothing is parsed, no task is created, nothing is
    added to [seen_video_ids]. *)
Lemma websub_post_forbidden (request : Request) (w : World) :
  _verify_signature secret (rq_body request) (signature_of request) = Ok false →
  websub_post secret decode fromstring request w
  = (w, Ok {| status := 403; body := Some "Invalid signature" |}).
Proof. intros H. unfold websub_post. fold (signature_of request). by rewrite H. Qed.

(** The rest of the run is what it would have been without that request. *)
Lemma websub_post_forbidden_run (request : Request) (w : World) (evs : list Event) :
  _verify_signature secret (rq_body request) (signature_of request) = Ok false →
  run secret decode fromstring (HttpPost request :: evs) w
  = ((run secret decode fromstring evs w).1,
     Responded (Ok {| status := 403; body := Some "Invalid signature" |})
     :: (run secret decode fromstring evs w).2).
Proof.
  intros H. cbn [run step]. rewrite (websub_post_forbidden _ _ H).
  by destruct (run secret decode fromstring evs w).
Qed.

(** A request that verifies and carries an entry is answered 204 and
    leaves one new task, not yet run. *)
Lemma websub_post_accepted (request : Request) (w : World) (v : Video) :
  _verify_signature secret (rq_body request) (signature_of request) = Ok true →
  parse_atom_for_video fromstring (decode (rq_body request)) = Ok (Some v) →
  websub_post secret decode fromstring request w
  = (create_task {| t_video_id := v_id v; t_title := v_title v;
                    t_link := v_link v; t_pc := Created |} w,
     Ok {| status := 204; body := None |}).
Proof.
  intros Hsig Hparse. unfold websub_post. fold (signature_of request).
  by rewrite Hsig, Hparse.
Qed.

(** X11: After a rejected request, a resend of the same entry that verifies is
    dispatched as soon as its task runs, provided the id was not seen
    before. *)
Lemma resend_after_forbidden (bad good : Request) (w : World) (v : Video) (env : Env) :
  _verify_signature secret (rq_body bad) (signature_of bad) = Ok false →
  _verify_signature secret (rq_body good) (signature_of good) = Ok true →
  parse_atom_for_video fromstring (decode (rq_body good)) = Ok (Some v) →
  v_id v ∉ seen_video_ids w →
  (run secret decode fromstring
     [HttpPost bad; HttpPost good; Run (length (tasks w)) env] w).2
  = [Responded (Ok {| status := 403; body := Some "Invalid signature" |});
     Responded (Ok {| status := 204; body := None |});
     Added (v_id v); Lookup (v_id v);
     match cached env with
     | Some channel => Send (v_id v) channel (announcement (v_title v) (v_link v))
     | None => Fetch (v_id v)
     end].
Proof.
  intros Hbad Hgood Hparse Hnew.
  rewrite (websub_post_forbidden_run _ _ _ Hbad). cbn [snd run step].
  rewrite (websub_post_accepted _ _ _ Hgood Hparse).
  cbn [create_task tasks]. rewrite list_lookup_middle by done.
  unfold announce_video. cbn [t_pc t_video_id seen_video_ids t_title t_link].
  rewrite bool_decide_eq_false_2 by done.
  by destruct (cached env).
Qed.

End PostProperties.

(** C3 fails on a signature header that is not ASCII: [compare_digest]
    raises [TypeError], the call stands outside the handler's [try], and
    the exception leaves [websub_post]: no 403 is produced.  (The world is
    unchanged all the same.) *)
Lemma websub_post_non_ascii_signature
    (decode : bytes → string) (fromstring : string → result Element) (w : World) :
  let request := Sample.post ("sha1=" +:+ Sample.e_acute) in
  _verify_signature "key" (rq_body request) (signature_of request)
  = Raise (TypeError "comparing strings with non-ASCII characters is not supported")
  ∧ websub_post "key" decode fromstring request w
    = (w, Raise (TypeError "comparing strings with non-ASCII characters is not supported")).
Proof.
  cbv zeta.
  assert (H : _verify_signature "key" (rq_body (Sample.post ("sha1=" +:+ Sample.e_acute)))
                (signature_of (Sample.post ("sha1=" +:+ Sample.e_acute)))
              = Raise (TypeError "comparing strings with non-ASCII characters is not supported"))
    by (vm_compute; reflexivity).
  split; [exact H|].
  unfold websub_post. fold (signature_of (Sample.post ("sha1=" +:+ Sample.e_acute))).
  by rewrite H.
Qed.

(** ** The event loop refines the protocol of each id *)

Lemma count_app {A} (p : A → bool) (l l' : list A) :
  count p (l ++ l') = (count p l + count p l')%nat.
Proof. induction l as [|a l IH]; simpl; [done | rewrite IH; lia]. Qed.

Lemma count_insert {A} (p : A → bool) (l : list A) (i : nat) (a b : A) :
  l !! i = Some a →
  (count p (<[i:=b]> l) + (if p a then 1 else 0)
   = count p l + (if p b then 1 else 0))%nat.
Proof.
  revert i. induction l as [|c l IH]; intros [|i] H; try done; simpl in *.
  - injection H as ->. lia.
  - specialize (IH i H). lia.
Qed.


Lemma view_app (x : string) (tr tr' : list Action) :
  view x (tr ++ tr') = view x tr ++ view x tr'.
Proof. apply List.filter_app. Qed.

Section Refinement.

Variable secret : string.
Variable decode : bytes → string.
Variable fromstring : string → result Element.

Lemma websub_post_tasks (request : Request) (w : World) :
  (websub_post secret decode fromstring request w).1 = w
  ∨ ∃ t, t_pc t = Created
         ∧ (websub_post secret decode fromstring request w).1 = create_task t w.
Proof.
  unfold websub_post.
  destruct (_verify_signature _ _ _) as [[]|]; try by left.
  destruct (parse_atom_for_video _ _) as [[v|]|]; try by left.
  right. eexists. split; [|reflexivity]. reflexivity.
Qed.

Lemma protocol_of_create_task (x : string) (t : Task) (w : World) :
  t_pc t = Created → protocol_of x (create_task t w) = protocol_of x w.
Proof.
  intros Hpc. unfold protocol_of, create_task. cbn [seen_video_ids tasks].
  rewrite !count_app. unfold awaiting_fetch, awaiting_send. simpl.
  rewrite Hpc, andb_false_r. f_equal; lia.
Qed.

Lemma awaiting_fetch_eq (x : string) (t : Task) :
  awaiting_fetch x t
  = bool_decide (t_video_id t = x)
    && match t_pc t with AwaitFetch => true | _ => false end.
Proof. reflexivity. Qed.

Lemma awaiting_send_eq (x : string) (t : Task) :
  awaiting_send x t
  = bool_decide (t_video_id t = x)
    && match t_pc t with AwaitSend _ => true | _ => false end.
Proof. reflexivity. Qed.

(** How the two counters of [x] move when task [i] goes from [t] to
    [at_pc t pc']; then the case [t_video_id t = x] and the other one. *)
Ltac task_counts x Hi Hpc t pc' :=
  let Hf := fresh "Hf" in
  let Hs := fresh "Hs" in
  let Hx := fresh "Hx" in
  pose proof (count_insert (awaiting_fetch x) _ _ _ (at_pc t pc') Hi) as Hf;
  pose proof (count_insert (awaiting_send x) _ _ _ (at_pc t pc') Hi) as Hs;
  rewrite (awaiting_fetch_eq x (at_pc t pc')), (awaiting_fetch_eq x t), Hpc in Hf;
  rewrite (awaiting_send_eq x (at_pc t pc')), (awaiting_send_eq x t), Hpc in Hs;
  cbn [fst snd view List.filter about at_pc t_pc t_video_id] in *;
  destruct (decide (t_video_id t = x)) as [Hx|Hx];
  [ rewrite ?(bool_decide_eq_true_2 _ Hx) in *
  | rewrite ?(bool_decide_eq_false_2 _ Hx) in * ];
  cbn [andb] in Hf, Hs.

Lemma claimed_add_seen_other (x v : string) (w : World) :
  v ≠ x →
  bool_decide (x ∈ seen_video_ids (add_seen v w))
  = bool_decide (x ∈ seen_video_ids w).
Proof.
  intros Hx. apply bool_decide_ext. cbn.
  rewrite elem_of_union, elem_of_singleton.
  split; [intros [Heq|H]; [by subst | done] | by right].
Qed.

Lemma claimed_add_seen (x : string) (w : World) :
  bool_decide (x ∈ seen_video_ids (add_seen x w)) = true.
Proof.
  apply bool_decide_eq_true_2. cbn.
  apply elem_of_union_l, elem_of_singleton. done.
Qed.

Lemma step_refines (x : string) (ev : Event) (w : World) :
  pstep x (protocol_of x w)
        (view x (step secret decode fromstring ev w).2)
        (protocol_of x (step secret decode fromstring ev w).1).
Proof.
  destruct ev as [request|request|i env]; cbn [step].
  - by apply p_idle.
  - destruct (websub_post secret decode fromstring request w) as [w' r] eqn:Hpost.
    cbn [fst snd view List.filter about].
    pose proof (websub_post_tasks request w) as [H | (t & Hpc & H)];
      rewrite Hpost in H; cbn [fst] in H; subst w'.
    + by apply p_idle.
    + rewrite protocol_of_create_task by done. by apply p_idle.
  - destruct (tasks w !! i) as [t|] eqn:Hi; [|by apply p_idle].
    unfold announce_video.
    destruct (t_pc t) eqn:Hpc.
    + (* Created *)
      case_bool_decide as Hseen.
      * task_counts x Hi Hpc t Returned.
        -- subst x. apply p_reject; cbn; try lia; try done.
           by apply bool_decide_eq_true_2.
        -- apply p_idle; cbn; try done; lia.
      * destruct (cached env) as [channel|].
        -- task_counts x Hi Hpc t (AwaitSend channel).
           ++ subst x. apply p_accept_send; cbn; try lia.
              ** by apply bool_decide_eq_false_2.
              ** apply (claimed_add_seen _ w).
           ++ apply p_idle; cbn; try lia.
              by apply (claimed_add_seen_other _ _ w).
        -- task_counts x Hi Hpc t AwaitFetch.
           ++ subst x. apply p_accept_fetch; cbn; try lia.
              ** by apply bool_decide_eq_false_2.
              ** apply (claimed_add_seen _ w).
           ++ apply p_idle; cbn; try lia.
              by apply (claimed_add_seen_other _ _ w).
    + (* AwaitFetch *)
      destruct (fetched env) as [channel|e].
      * task_counts x Hi Hpc t (AwaitSend channel).
        -- subst x. apply p_fetched; cbn; try done; lia.
        -- apply p_idle; cbn; try done; lia.
      * task_counts x Hi Hpc t (Raised e).
        -- apply p_fetch_failed; cbn; try done; lia.
        -- apply p_idle; cbn; try done; lia.
    + (* AwaitSend *)
      destruct (sent env) as [[]|e].
      * task_counts x Hi Hpc t Returned.
        -- apply p_send_ended; cbn; try done; lia.
        -- apply p_idle; cbn; try done; lia.
      * task_counts x Hi Hpc t (Raised e).
        -- apply p_send_ended; cbn; try done; lia.
        -- apply p_idle; cbn; try done; lia.
    + (* Returned *)
      cbn [fst snd view List.filter]. unfold set_task.
      rewrite list_insert_id by done. by apply p_idle.
    + (* Raised *)
      cbn [fst snd view List.filter]. unfold set_task.
      rewrite list_insert_id by done. by apply p_idle.
Qed.

End Refinement.

(** ** Invariants of the protocol *)

Lemma app_eq_cons_split {A} (tr acts pre post : list A) (a : A) :
  tr ++ acts = pre ++ a :: post →
  (∃ post0, tr = pre ++ a :: post0 ∧ post = post0 ++ acts)
  ∨ (∃ pre1, pre = tr ++ pre1 ∧ acts = pre1 ++ a :: post).
Proof.
  revert pre. induction tr as [|b tr IH]; intros pre H.
  - right. by exists pre.
  - destruct pre as [|c pre]; simpl in H.
    + injection H as -> <-. left. by exists tr.
    + injection H as -> H. destruct (IH _ H) as [(post0 & -> & ->) | (pre1 & -> & ->)].
      * left. by exists post0.
      * right. by exists pre1.
Qed.

Lemma count_pos_elem {A} (p : A → bool) (l : list A) :
  (0 < count p l)%nat → ∃ a, a ∈ l ∧ p a = true.
Proof.
  induction l as [|a l IH]; simpl; [lia|].
  destruct (p a) eqn:Hp.
  - intros _. exists a. split; [left | done].
  - intros H. destruct (IH H) as (b & Hb & Hpb). exists b. split; [by right | done].
Qed.

Lemma is_added_eq (x : string) (a : Action) : is_added x a = true → a = Added x.
Proof. destruct a; simpl; try done. by intros ->%bool_decide_eq_true. Qed.

Lemma decisions_app (x : string) (tr tr' : list Action) :
  decisions x (tr ++ tr') = decisions x tr ++ decisions x tr'.
Proof. apply List.filter_app. Qed.

Lemma pinv_init (x : string) :
  PInv x {| claimed := false; fetching := 0; sending := 0 |} [].
Proof.
  split; cbn; try done; try lia.
  - by exists 0%nat.
  - intros [|??] ? H; discriminate.
  - intros [|??] ??? H; discriminate.
Qed.

Ltac x_counts x :=
  rewrite ?count_app; cbn [count is_added is_lookup is_fetch is_send is_rejected];
  rewrite ?(bool_decide_eq_true_2 (x = x)) by done.

Lemma pinv_step (x : string) (s s' : Protocol) (tr acts : list Action) :
  PInv x s tr → pstep x s acts s' → PInv x s' (tr ++ acts).
Proof.
  intros [Ha Hl Hf Hs Hw [n Hd] Hn Ho] Hstep.
  destruct Hstep as
    [s s' Hc Hnf Hns | s s' Hcl Hc Hnf Hns | s s' ch m Hcl Hc Hnf Hns
    | s s' Hcl Hc Hnf Hns | s s' ch m Hc Hnf Hns | s s' Hc Hnf Hns
    | s s' Hc Hnf Hns].
  - (* idle *)
    rewrite app_nil_r. split; rewrite ?Hc, ?Hnf, ?Hns; eauto.
  - (* reject *)
    rewrite Hcl in *. cbn [b2n] in *.
    split; rewrite ?Hc, ?Hnf, ?Hns; cbn [b2n]; x_counts x; try lia.
    + exists (S n). rewrite decisions_app, Hd. cbn.
      rewrite bool_decide_eq_true_2 by done. cbn.
      by rewrite (repeat_cons n (Rejected x)).
    + intros pre post [(post0 & -> & ->) | (pre1 & -> & H)]%app_eq_cons_split.
      * destruct (Hn _ _ eq_refl) as [post' ->]. by eexists.
      * destruct pre1 as [|? [|??]]; discriminate.
    + intros pre c m' post [(post0 & -> & ->) | (pre1 & -> & H)]%app_eq_cons_split.
      * by eapply Ho.
      * destruct pre1 as [|? [|??]]; discriminate.
  - (* accept, channel cached *)
    rewrite Hcl in *. cbn [b2n] in *.
    split; rewrite ?Hc, ?Hnf, ?Hns; cbn [b2n]; x_counts x; try lia.
    + exists 0%nat. rewrite decisions_app, Hd. cbn.
      by rewrite bool_decide_eq_true_2.
    + intros pre post [(post0 & -> & ->) | (pre1 & -> & H)]%app_eq_cons_split.
      * destruct (Hn _ _ eq_refl) as [post' ->]. by eexists.
      * destruct pre1 as [|? [|? [|? [|??]]]]; simplify_eq/=. by eexists.
    + intros pre c m' post [(post0 & -> & ->) | (pre1 & -> & H)]%app_eq_cons_split.
      * by eapply Ho.
      * destruct pre1 as [|? [|? [|? [|??]]]]; simplify_eq/=.
        apply elem_of_app. right. left.
  - (* accept, channel fetched *)
    rewrite Hcl in *. cbn [b2n] in *.
    split; rewrite ?Hc, ?Hnf, ?Hns; cbn [b2n]; x_counts x; try lia.
    + exists 0%nat. rewrite decisions_app, Hd. cbn.
      by rewrite bool_decide_eq_true_2.
    + intros pre post [(post0 & -> & ->) | (pre1 & -> & H)]%app_eq_cons_split.
      * destruct (Hn _ _ eq_refl) as [post' ->]. by eexists.
      * destruct pre1 as [|? [|? [|? [|??]]]]; simplify_eq/=. by eexists.
    + intros pre c m' post [(post0 & -> & ->) | (pre1 & -> & H)]%app_eq_cons_split.
      * by eapply Ho.
      * destruct pre1 as [|? [|? [|? [|??]]]]; simplify_eq/=.
  - (* the fetch returns a channel *)
    assert (Hcl : claimed s = true) by (destruct (claimed s); cbn in *; [done | lia]).
    rewrite Hcl in *. cbn [b2n] in *.
    split; rewrite ?Hc, ?Hnf, ?Hns; cbn [b2n]; x_counts x; try lia.
    + exists n. rewrite decisions_app, Hd. cbn. by rewrite app_nil_r.
    + intros pre post [(post0 & -> & ->) | (pre1 & -> & H)]%app_eq_cons_split.
      * destruct (Hn _ _ eq_refl) as [post' ->]. by eexists.
      * destruct pre1 as [|? [|??]]; discriminate.
    + intros pre c m' post [(post0 & -> & ->) | (pre1 & -> & H)]%app_eq_cons_split.
      * by eapply Ho.
      * destruct pre1 as [|? [|??]]; simplify_eq/=. rewrite app_nil_r.
        destruct (count_pos_elem (is_added x) tr) as (a & Hin & Hp); [lia|].
        by apply is_added_eq in Hp as ->.
  - (* the fetch raises *)
    rewrite app_nil_r. split; rewrite ?Hc; eauto; lia.
  - (* the send returns or raises *)
    rewrite app_nil_r. split; rewrite ?Hc; eauto; lia.
Qed.

Lemma pinv_runs (x : string) (s s' : Protocol) (tr0 tr : list Action) :
  PInv x s tr0 → pruns x s tr s' → PInv x s' (tr0 ++ tr).
Proof.
  intros Hinv Hruns. revert tr0 Hinv.
  induction Hruns as [s | s acts s1 tr s2 Hstep _ IH]; intros tr0 Hinv.
  - by rewrite app_nil_r.
  - rewrite app_assoc. apply IH. by eapply pinv_step.
Qed.

(** Once [x] is claimed and no coroutine for it is suspended, nothing is
    ever done for [x] again but rejecting it. *)
Lemma pruns_quiescent (x : string) (s s' : Protocol) (tr : list Action) :
  pruns x s tr s' →
  claimed s = true → fetching s = 0%nat → sending s = 0%nat →
  (claimed s' = true ∧ fetching s' = 0%nat ∧ sending s' = 0%nat)
  ∧ ∀ a, a ∈ tr → a = Rejected x.
Proof.
  induction 1 as [s | s acts s1 tr s2 Hstep _ IH]; intros Hc Hf Hs.
  - split; [done|]. by intros a ?%elem_of_nil.
  - assert ((claimed s1 = true ∧ fetching s1 = 0%nat ∧ sending s1 = 0%nat)
            ∧ ∀ a, a ∈ acts → a = Rejected x) as [(Hc1 & Hf1 & Hs1) Hacts].
    { destruct Hstep; try congruence; try lia.
      - split; [repeat split; congruence|]. by intros a ?%elem_of_nil.
      - split; [repeat split; congruence|].
        by intros a [-> | ?%elem_of_nil]%elem_of_cons. }
    destruct (IH Hc1 Hf1 Hs1) as [Hfin Htr]. split; [done|].
    intros a [?|?]%elem_of_app; auto.
Qed.

(** ** Runs of the event loop *)

Lemma elem_of_view (x : string) (a : Action) (tr : list Action) :
  a ∈ view x tr ↔ a ∈ tr ∧ about x a = true.
Proof. unfold view. rewrite !list_elem_of_In. apply List.filter_In. Qed.

Lemma view_split (x : string) (a : Action) (pre post : list Action) :
  about x a = true → view x (pre ++ a :: post) = view x pre ++ a :: view x post.
Proof. intros Ha. rewrite view_app. cbn. by rewrite Ha. Qed.


Lemma count_lookup_pos {A} (p : A → bool) (l : list A) (i : nat) (a : A) :
  l !! i = Some a → p a = true → (0 < count p l)%nat.
Proof.
  revert i. induction l as [|b l IH]; intros [|i] H Hp; try done; simpl in *.
  - injection H as ->. rewrite Hp. lia.
  - specialize (IH i H Hp). lia.
Qed.

Section Runs.

Variable secret : string.
Variable decode : bytes → string.
Variable fromstring : string → result Element.

Lemma run_cons (ev : Event) (evs : list Event) (w : World) :
  run secret decode fromstring (ev :: evs) w
  = ((run secret decode fromstring evs (step secret decode fromstring ev w).1).1,
     (step secret decode fromstring ev w).2
     ++ (run secret decode fromstring evs (step secret decode fromstring ev w).1).2).
Proof.
  cbn [run]. destruct (step secret decode fromstring ev w) as [w1 a1].
  cbn [fst snd]. by destruct (run secret decode fromstring evs w1).
Qed.

Lemma run_refines (x : string) (evs : list Event) (w : World) :
  pruns x (protocol_of x w)
        (view x (run secret decode fromstring evs w).2)
        (protocol_of x (run secret decode fromstring evs w).1).
Proof.
  revert w. induction evs as [|ev evs IH]; intros w.
  - apply pruns_nil.
  - rewrite run_cons. cbn [fst snd]. rewrite view_app.
    eapply pruns_cons; [apply step_refines | apply IH].
Qed.

Lemma run_inv (x : string) (evs : list Event) :
  PInv x (protocol_of x (run secret decode fromstring evs init).1)
       (view x (run secret decode fromstring evs init).2).
Proof.
  change (view x (run secret decode fromstring evs init).2)
    with ([] ++ view x (run secret decode fromstring evs init).2).
  eapply pinv_runs; [|apply run_refines].
  unfold protocol_of, init. cbn [seen_video_ids tasks count].
  rewrite bool_decide_eq_false_2 by apply not_elem_of_empty.
  apply pinv_init.
Qed.


(** C4: let a coroutine for [x] be suspended in the fetch or in the send,
    and let that call raise.  Then [x] was added before any send for it,
    the failure retries nothing and leaves [x] in the set, and whatever
    happens later, [x] stays in the set and every later action for [x] is
    a rejection. *)
Theorem failed_dispatch_stays_claimed
    (evs : list Event) (i : nat) (t : Task) (env : Env) (e : exn)
    (evs' : list Event) :
  let w := (run secret decode fromstring evs init).1 in
  let tr := (run secret decode fromstring evs init).2 in
  let x := t_video_id t in
  tasks w !! i = Some t →
  (t_pc t = AwaitFetch ∧ fetched env = Raise e)
  ∨ (∃ channel, t_pc t = AwaitSend channel ∧ sent env = Raise e) →
  let w1 := (step secret decode fromstring (Run i env) w).1 in
  let out := run secret decode fromstring evs' w1 in
  (x ∈ seen_video_ids w
   ∧ ∀ pre channel message post,
       tr = pre ++ Send x channel message :: post → Added x ∈ pre)
  ∧ ((step secret decode fromstring (Run i env) w).2 = []
     ∧ tasks w1 !! i = Some (at_pc t (Raised e))
     ∧ x ∈ seen_video_ids w1)
  ∧ (x ∈ seen_video_ids out.1
     ∧ ∀ a, a ∈ out.2 → about x a = true → a = Rejected x).
Proof.
  intros w tr x Hi Hfail w1 out.
  destruct (run_inv x evs) as [_ _ _ _ Hw _ _ Ho].
  fold w tr in Hw, Ho. cbn [protocol_of claimed fetching sending] in Hw.
  (* the step itself *)
  assert (Hstep : step secret decode fromstring (Run i env) w
                  = (set_task i (at_pc t (Raised e)) w, [])).
  { cbn [step]. rewrite Hi. unfold announce_video.
    destruct Hfail as [[-> ->] | (channel & -> & ->)]; reflexivity. }
  (* task [i] is one of the suspended coroutines of [x] *)
  assert (Hpos : awaiting_fetch x t || awaiting_send x t = true).
  { unfold awaiting_fetch, awaiting_send, x.
    rewrite bool_decide_eq_true_2 by done.
    destruct Hfail as [[-> _] | (channel & -> & _)]; reflexivity. }
  assert (Hseen : x ∈ seen_video_ids w).
  { destruct (decide (x ∈ seen_video_ids w)) as [|Hno]; [done|].
    rewrite (bool_decide_eq_false_2 _ Hno) in Hw. cbn [b2n] in Hw.
    apply orb_true_iff in Hpos as [Hp|Hp];
      pose proof (count_lookup_pos _ _ _ _ Hi Hp); lia. }
  rewrite (bool_decide_eq_true_2 _ Hseen) in Hw. cbn [b2n] in Hw.
  assert (Hq : protocol_of x w1 = {| claimed := true; fetching := 0; sending := 0 |}).
  { subst w1. rewrite Hstep. cbn [fst]. unfold protocol_of.
    cbn [set_task seen_video_ids tasks].
    rewrite (bool_decide_eq_true_2 _ Hseen).
    pose proof (count_insert (awaiting_fetch x) _ _ _ (at_pc t (Raised e)) Hi) as Hcf.
    pose proof (count_insert (awaiting_send x) _ _ _ (at_pc t (Raised e)) Hi) as Hcs.
    rewrite (awaiting_fetch_eq x (at_pc t (Raised e))) in Hcf.
    rewrite (awaiting_send_eq x (at_pc t (Raised e))) in Hcs.
    cbn [at_pc t_pc] in Hcf, Hcs. rewrite andb_false_r in Hcf, Hcs.
    apply orb_true_iff in Hpos as [Hp|Hp]; rewrite Hp in *;
      pose proof (count_lookup_pos _ _ _ _ Hi Hp);
      [destruct (awaiting_send x t) | destruct (awaiting_fetch x t)];
      f_equal; lia. }
  split; [split; [done|] | split; [split; [|split] |]].
  - intros pre channel message post Htr.
    assert (Habout : about x (Send x channel message) = true)
      by (cbn; by apply bool_decide_eq_true_2).
    pose proof (view_split x _ pre post Habout) as Hv. rewrite <- Htr in Hv.
    apply Ho in Hv. by apply elem_of_view in Hv as [? _].
  - by rewrite Hstep.
  - subst w1. rewrite Hstep. cbn [fst set_task tasks].
    apply list_lookup_insert_eq. by eapply lookup_lt_Some.
  - subst w1. by rewrite Hstep.
  - pose proof (run_refines x evs' w1) as Hruns. fold out in Hruns.
    rewrite Hq in Hruns.
    apply pruns_quiescent in Hruns as [(Hc & _ & _) Hrej]; [|done..].
    split.
    + by apply (bool_decide_eq_true_1 (x ∈ seen_video_ids out.1)).
    + intros a Ha Habout. apply Hrej, elem_of_view. done.
Qed.

End Runs.


(** A run on the sample data: the push is accepted, its task suspends in
    the fetch, the fetch raises; the same push then arrives again. *)
Lemma failed_dispatch_stays_claimed_witness :
  let history := [HttpPost Sample.post_v1; Run 0 Sample.discord_up] in
  let later := [HttpPost Sample.post_v1; Run 1 Sample.discord_up] in
  let w := (run "key" Sample.decode Sample.fromstring history init).1 in
  let tr := (run "key" Sample.decode Sample.fromstring history init).2 in
  let w1 := (step "key" Sample.decode Sample.fromstring (Run 0 Sample.discord_down) w).1 in
  let out := run "key" Sample.decode Sample.fromstring later w1 in
  tasks w !! 0%nat = Some (Sample.task_v1 AwaitFetch)
  ∧ fetched Sample.discord_down = Raise (DiscordException "404 Not Found")
  ∧ out.2 = [Responded (Ok {| status := 204; body := None |}); Rejected "v1"]
  ∧ (("v1" ∈ seen_video_ids w
      ∧ ∀ pre channel message post,
          tr = pre ++ Send "v1" channel message :: post → Added "v1" ∈ pre)
     ∧ ((step "key" Sample.decode Sample.fromstring (Run 0 Sample.discord_down) w).2 = []
        ∧ tasks w1 !! 0%nat
          = Some (at_pc (Sample.task_v1 AwaitFetch)
                        (Raised (DiscordException "404 Not Found")))
        ∧ "v1" ∈ seen_video_ids w1)
     ∧ ("v1" ∈ seen_video_ids out.1
        ∧ ∀ a, a ∈ out.2 → about "v1" a = true → a = Rejected "v1")).
Proof.
  cbv zeta.
  split; [vm_compute; reflexivity|]. split; [reflexivity|].
  split; [vm_compute; reflexivity|].
  apply (failed_dispatch_stays_claimed "key" Sample.decode Sample.fromstring
           [HttpPost Sample.post_v1; Run 0 Sample.discord_up] 0
           (Sample.task_v1 AwaitFetch) Sample.discord_down
           (DiscordException "404 Not Found")
           [HttpPost Sample.post_v1; Run 1 Sample.discord_up]).
  - vm_compute. reflexivity.
  - left. split; reflexivity.
Defined.

(** * Further properties *)

(** ** [_verify_signature]: every outcome *)

Lemma verify_signature_prefixed (secret : string) (B : bytes) (rest : string) :
  secret ≠ "" →
  _verify_signature secret B ("sha1=" +:+ rest)
  = compare_digest (Hmac.hexdigest (Str.encode_utf8 secret) B) (Str.strip rest).
Proof.
  intros Hs. apply truthy_true in Hs.
  unfold _verify_signature. rewrite Hs. cbn [negb].
  assert (Str.startswith ("sha1=" +:+ rest) "sha1=" = true) as ->
    by (apply startswith_app; eauto).
  change (Str.truthy ("sha1=" +:+ rest)) with true.
  cbn [negb orb]. by rewrite split_once_sha1.
Qed.

Lemma verify_signature_unprefixed (secret : string) (B : bytes) (header : string) :
  secret ≠ "" → Str.startswith header "sha1=" = false →
  _verify_signature secret B header = Ok false.
Proof.
  intros Hs Hp. apply truthy_true in Hs.
  unfold _verify_signature. by rewrite Hs, Hp, orb_true_r.
Qed.

Lemma startswith_cases (header : string) :
  Str.startswith header "sha1=" = false ∨ ∃ rest, header = "sha1=" +:+ rest.
Proof.
  destruct (Str.startswith header "sha1=") eqn:Hp; [right | by left].
  by apply startswith_app.
Qed.

Lemma compare_digest_cases (a b : string) :
  Str.isascii a = true →
  compare_digest a b
  = if Str.isascii b then Ok (String.eqb a b)
    else Raise (TypeError "comparing strings with non-ASCII characters is not supported").
Proof. intros Ha. unfold compare_digest. by rewrite Ha. Qed.

(** X1: The check raises only [TypeError], and exactly when the header begins
    with "sha1=" and what follows, once stripped, is not ASCII; it never
    raises for want of a second part after the "=". *)
Theorem verify_signature_raises (secret : string) (B : bytes) (header : string) (e : exn) :
  secret ≠ "" →
  _verify_signature secret B header = Raise e
  ↔ e = TypeError "comparing strings with non-ASCII characters is not supported"
    ∧ ∃ rest, header = "sha1=" +:+ rest ∧ Str.isascii (Str.strip rest) = false.
Proof.
  intros Hs. destruct (startswith_cases header) as [Hp | [rest ->]].
  - rewrite (verify_signature_unprefixed _ _ _ Hs Hp). split; [discriminate|].
    intros (_ & rest & -> & _).
    assert (Str.startswith ("sha1=" +:+ rest) "sha1=" = true)
      by (apply startswith_app; eauto).
    congruence.
  - rewrite (verify_signature_prefixed _ _ _ Hs),
      compare_digest_cases by apply isascii_hex.
    destruct (Str.isascii (Str.strip rest)) eqn:Ha.
    + split; [discriminate|].
      intros (_ & rest' & Heq & Ha'). apply append_inv_head in Heq as <-. congruence.
    + split.
      * intros [= <-]. split; [done|]. by exists rest.
      * by intros [-> _].
Qed.

Lemma verify_signature_raises_witness :
  "key" ≠ ""
  ∧ (_verify_signature "key" Sample.fox ("sha1=" +:+ Sample.e_acute)
     = Raise (TypeError "comparing strings with non-ASCII characters is not supported")
     ↔ TypeError "comparing strings with non-ASCII characters is not supported"
       = TypeError "comparing strings with non-ASCII characters is not supported"
       ∧ ∃ rest, "sha1=" +:+ Sample.e_acute = "sha1=" +:+ rest
                 ∧ Str.isascii (Str.strip rest) = false).
Proof.
  split; [discriminate|].
  apply (verify_signature_raises "key" Sample.fox ("sha1=" +:+ Sample.e_acute)).
  discriminate.
Defined.

(** X2: The check answers [False] exactly when the header does not begin with
    "sha1=" (a missing header, another algorithm, capitals), or when what
    follows is ASCII once stripped and differs from the digest. *)
Theorem verify_signature_refuses (secret : string) (B : bytes) (header : string) :
  secret ≠ "" →
  _verify_signature secret B header = Ok false
  ↔ Str.startswith header "sha1=" = false
    ∨ ∃ rest, header = "sha1=" +:+ rest
              ∧ Str.isascii (Str.strip rest) = true
              ∧ Str.strip rest ≠ Hmac.hexdigest (Str.encode_utf8 secret) B.
Proof.
  intros Hs. destruct (startswith_cases header) as [Hp | [rest ->]].
  - rewrite (verify_signature_unprefixed _ _ _ Hs Hp). split; [by left | done].
  - assert (Hp : Str.startswith ("sha1=" +:+ rest) "sha1=" = true)
      by (apply startswith_app; eauto).
    rewrite (verify_signature_prefixed _ _ _ Hs),
      compare_digest_cases by apply isascii_hex.
    destruct (Str.isascii (Str.strip rest)) eqn:Ha.
    + destruct (String.eqb_spec (Hmac.hexdigest (Str.encode_utf8 secret) B)
                  (Str.strip rest)) as [Heq|Hne].
      * split; [discriminate|]. intros [? | (rest' & Hr & _ & Hne)]; [congruence|].
        apply append_inv_head in Hr as <-. congruence.
      * split; [|done]. intros _. right. exists rest. repeat split; congruence.
    + split; [discriminate|]. intros [? | (rest' & Hr & Ha' & _)]; [congruence|].
      apply append_inv_head in Hr as <-. congruence.
Qed.

Lemma verify_signature_refuses_witness :
  "key" ≠ ""
  ∧ (_verify_signature "key" Sample.fox ("sha256=" +:+ Sample.fox_sig) = Ok false
     ↔ Str.startswith ("sha256=" +:+ Sample.fox_sig) "sha1=" = false
       ∨ ∃ rest, "sha256=" +:+ Sample.fox_sig = "sha1=" +:+ rest
                 ∧ Str.isascii (Str.strip rest) = true
                 ∧ Str.strip rest ≠ Hmac.hexdigest (Str.encode_utf8 "key") Sample.fox).
Proof.
  split; [discriminate|].
  apply (verify_signature_refuses "key" Sample.fox ("sha256=" +:+ Sample.fox_sig)).
  discriminate.
Defined.

Lemma be_bytes_length (n : nat) (x : Z) : length (Sha1.be_bytes n x) = n.
Proof. induction n as [|n IH]; simpl; [done | by rewrite IH]. Qed.

Lemma sha1_digest_length (msg : bytes) : length (Sha1.digest msg) = 20%nat.
Proof.
  unfold Sha1.digest. cbv zeta.
  rewrite length_map, !length_app, !be_bytes_length. reflexivity.
Qed.

Lemma hex_length (bs : bytes) : String.length (Hmac.hex bs) = (2 * length bs)%nat.
Proof.
  unfold Hmac.hex. induction bs as [|b bs IH]; [done|].
  cbn [map concat Hmac.hex_of_byte app string_of_list_ascii String.length length].
  rewrite IH. lia.
Qed.

(** X3: An accepted header carries, after "sha1=" and between its whitespace,
    exactly forty ASCII characters. *)
Theorem verify_signature_digest_length (secret : string) (B : bytes) (header : string) :
  secret ≠ "" →
  _verify_signature secret B header = Ok true →
  ∃ rest, header = "sha1=" +:+ rest
          ∧ String.length (Str.strip rest) = 40%nat
          ∧ Str.isascii (Str.strip rest) = true.
Proof.
  intros Hs H. destruct (startswith_cases header) as [Hp | [rest ->]].
  - rewrite (verify_signature_unprefixed _ _ _ Hs Hp) in H. discriminate.
  - exists rest. split; [done|].
    rewrite (verify_signature_prefixed _ _ _ Hs) in H.
    apply compare_digest_ascii in H; [|apply isascii_hex]. rewrite <- H.
    split; [|apply isascii_hex].
    unfold Hmac.hexdigest, Hmac.digest. by rewrite hex_length, sha1_digest_length.
Qed.

Lemma verify_signature_digest_length_witness :
  "key" ≠ ""
  ∧ _verify_signature "key" Sample.fox ("sha1= " +:+ Sample.fox_sig) = Ok true
  ∧ ∃ rest, "sha1= " +:+ Sample.fox_sig = "sha1=" +:+ rest
            ∧ String.length (Str.strip rest) = 40%nat
            ∧ Str.isascii (Str.strip rest) = true.
Proof.
  assert (H : _verify_signature "key" Sample.fox ("sha1= " +:+ Sample.fox_sig) = Ok true)
    by (vm_compute; reflexivity).
  split; [discriminate | split; [exact H|]].
  apply (verify_signature_digest_length "key" Sample.fox
           ("sha1= " +:+ Sample.fox_sig)); [discriminate | exact H].
Defined.

(** ** [parse_atom_for_video]: the link and the entry that is read *)

Lemma find_first {A} (p : A → bool) (pre post : list A) (a : A) :
  (∀ b, b ∈ pre → p b = false) → p a = true →
  List.find p (pre ++ a :: post) = Some a.
Proof.
  intros Hpre Ha. induction pre as [|b pre IH]; simpl.
  - by rewrite Ha.
  - rewrite (Hpre b) by left. apply IH. intros c Hc. apply Hpre. by right.
Qed.

Section ParseMore.

Variable fromstring : string → result Element.

(** X4: An href on the entry's link element is returned as it stands, unless
    it is empty: then the watch URL of the id takes its place. *)
Theorem parse_explicit_link
    (doc : string) (root entry id_el link_el : Element) (vid href : string) :
  fromstring doc = Ok root →
  ET.find root "atom:entry" ns = Some entry →
  ET.find entry "yt:videoId" ns = Some id_el →
  text id_el = Some vid → vid ≠ "" →
  ET.find entry "atom:link" ns = Some link_el →
  attrib link_el !! "href" = Some href →
  ∃ title,
    parse_atom_for_video fromstring doc
    = Ok (Some {| v_id := vid; v_title := title;
                  v_link := Some (if Str.truthy href then href else watch_url vid) |}).
Proof.
  intros Hroot Hentry Hid Htext Hvid Hlink Hhref. apply truthy_true in Hvid.
  unfold parse_atom_for_video. rewrite Hroot. cbn [mbind result_bind].
  rewrite Hentry, Hid, Htext, Hlink, Hhref. cbn [truthy_opt]. rewrite Hvid.
  destruct (Str.truthy href); eexists; reflexivity.
Qed.

(** X5: Only the first entry of the feed is read: the elements before it, the
    entries and other elements after it, and the root's own tag,
    attributes and text make no difference to the result. *)
Theorem parse_first_entry_only
    (doc doc' : string) (entry : Element) (pre post : list Element)
    (t t' : string) (a a' : gmap string string) (x x' : option string) :
  fromstring doc = Ok (Elem t a x (pre ++ entry :: post)) →
  fromstring doc' = Ok (Elem t' a' x' [entry]) →
  tag entry = "{http://www.w3.org/2005/Atom}entry" →
  (∀ el, el ∈ pre → tag el ≠ "{http://www.w3.org/2005/Atom}entry") →
  parse_atom_for_video fromstring doc = parse_atom_for_video fromstring doc'.
Proof.
  intros Hdoc Hdoc' Htag Hpre.
  unfold parse_atom_for_video. rewrite Hdoc, Hdoc'. cbn [mbind result_bind].
  assert (Hfind : ∀ t a x l, ET.find (Elem t a x l) "atom:entry" ns
                           = List.find (fun c => String.eqb (tag c)
                               "{http://www.w3.org/2005/Atom}entry") l)
    by reflexivity.
  rewrite !Hfind.
  rewrite (find_first _ pre post entry), (find_first _ [] [] entry); try done.
  - by intros b ?%elem_of_nil.
  - by apply String.eqb_eq.
  - intros b Hb. apply String.eqb_neq. by apply Hpre.
  - by apply String.eqb_eq.
Qed.

End ParseMore.

Lemma parse_explicit_link_witness :
  Sample.fromstring Sample.doc_v1 = Ok Sample.feed_v1
  ∧ "v1" ≠ ""
  ∧ ∃ title,
      parse_atom_for_video Sample.fromstring Sample.doc_v1
      = Ok (Some {| v_id := "v1"; v_title := title;
                    v_link := Some "https://example.com/v1" |}).
Proof.
  split; [reflexivity | split; [discriminate|]].
  eapply (parse_explicit_link Sample.fromstring Sample.doc_v1 Sample.feed_v1
            _ _ _ "v1" "https://example.com/v1").
  - reflexivity.
  - reflexivity.
  - reflexivity.
  - reflexivity.
  - discriminate.
  - reflexivity.
  - reflexivity.
Defined.

Lemma parse_some_id_link_witness :
  parse_atom_for_video Sample.fromstring Sample.doc_v1
  = Ok (Some {| v_id := "v1"; v_title := Some "Hello";
                v_link := Some "https://example.com/v1" |})
  ∧ "v1" ≠ "" ∧ ∃ link, Some "https://example.com/v1" = Some link ∧ link ≠ "".
Proof.
  split; [reflexivity|].
  apply (parse_some_id_link Sample.fromstring Sample.doc_v1
           {| v_id := "v1"; v_title := Some "Hello";
              v_link := Some "https://example.com/v1" |}).
  reflexivity.
Defined.

Lemma parse_first_entry_only_witness :
  Scenario.fromstring Scenario.doc_two_entries = Ok Scenario.feed_two_entries
  ∧ Scenario.fromstring Scenario.doc_only_entry = Ok Scenario.feed_only_entry
  ∧ parse_atom_for_video Scenario.fromstring Scenario.doc_two_entries
    = parse_atom_for_video Scenario.fromstring Scenario.doc_only_entry.
Proof.
  split; [reflexivity | split; [reflexivity|]].
  apply (parse_first_entry_only Scenario.fromstring
           Scenario.doc_two_entries Scenario.doc_only_entry Scenario.entry_v1
           [Sample.leaf (Sample.atom "title") (Some "YouTube video feed")]
           [Elem (Sample.atom "entry") ∅ None
              [Sample.leaf (Sample.yt "videoId") (Some "v2");
               Sample.leaf (Sample.atom "title") (Some "World")]]
           (Sample.atom "feed") (Sample.atom "feed") ∅ ∅ None None).
  - reflexivity.
  - reflexivity.
  - reflexivity.
  - intros el Hel. apply elem_of_cons in Hel as [-> | Hel]; [discriminate|].
    by apply elem_of_nil in Hel.
Defined.

Lemma parse_title_placeholder_witness :
  Scenario.fromstring Scenario.doc_untitled = Ok Scenario.feed_untitled
  ∧ parse_atom_for_video Scenario.fromstring Scenario.doc_untitled
    = Ok (Some {| v_id := "v3"; v_title := Some "(no title)";
                  v_link := Some "https://www.youtube.com/watch?v=v3" |})
  ∧ Some "(no title)" = Some "(no title)".
Proof.
  split; [reflexivity | split; [reflexivity|]].
  eapply (parse_title_placeholder Scenario.fromstring Scenario.doc_untitled
            Scenario.feed_untitled _
            {| v_id := "v3"; v_title := Some "(no title)";
               v_link := Some "https://www.youtube.com/watch?v=v3" |}).
  - reflexivity.
  - reflexivity.
  - reflexivity.
  - reflexivity.
Defined.

(** ** [websub_post]: every outcome *)

Lemma verify_signature_raise_type (secret : string) (B : bytes) (header : string) (e : exn) :
  _verify_signature secret B header = Raise e →
  e = TypeError "comparing strings with non-ASCII characters is not supported".
Proof.
  destruct secret as [|c secret]; [discriminate|].
  destruct (startswith_cases header) as [Hp | [rest ->]].
  - by rewrite verify_signature_unprefixed.
  - rewrite verify_signature_prefixed, compare_digest_cases
      by (done || apply isascii_hex).
    destruct (Str.isascii _); [discriminate | congruence].
Qed.

Lemma parse_some_id (fromstring : string → result Element) (doc : string) (v : Video) :
  parse_atom_for_video fromstring doc = Ok (Some v) → v_id v ≠ "".
Proof.
  unfold parse_atom_for_video.
  destruct (fromstring doc) as [root|]; [|discriminate]. cbn [mbind result_bind].
  destruct (ET.find root "atom:entry" ns) as [entry|]; [|discriminate].
  destruct (ET.find entry "yt:videoId" ns) as [id_el|]; [|discriminate].
  destruct (text id_el) as [vid|]; [|discriminate].
  destruct (Str.truthy vid) eqn:Hvid; [|discriminate].
  cbn [negb]. intros [= <-]. by apply truthy_true.
Qed.

Section PostMore.

Variable secret : string.
Variable decode : bytes → string.
Variable fromstring : string → result Element.

(** Once the body is read, a POST is answered 204, 403 or 500, or raises the [TypeError] of the
    signature check, and nothing else.  It changes the world only when it
    answers 204 for a parsed entry, and then only by scheduling one task
    for that entry, whose id is not empty. *)
Lemma websub_post_outcomes (request : Request) (w : World) :
  let out := websub_post secret decode fromstring request w in
  (out.2 = Ok {| status := 204; body := None |}
   ∨ out.2 = Ok {| status := 403; body := Some "Invalid signature" |}
   ∨ out.2 = Ok {| status := 500; body := Some "error" |}
   ∨ out.2 = Raise (TypeError "comparing strings with non-ASCII characters is not supported"))
  ∧ (out.1 = w
     ∨ ∃ v, parse_atom_for_video fromstring (decode (rq_body request)) = Ok (Some v)
            ∧ v_id v ≠ ""
            ∧ out.2 = Ok {| status := 204; body := None |}
            ∧ out.1 = create_task {| t_video_id := v_id v; t_title := v_title v;
                                     t_link := v_link v; t_pc := Created |} w).
Proof.
  cbv zeta. unfold websub_post. fold (signature_of request).
  destruct (_verify_signature secret (rq_body request) (signature_of request))
    as [[]|e] eqn:Hsig; cbn [fst snd].
  - destruct (parse_atom_for_video fromstring (decode (rq_body request)))
      as [[v|]|e] eqn:Hparse; cbn [fst snd].
    + split; [by left|]. right. exists v. repeat split; try done.
      by apply (parse_some_id fromstring _ _ Hparse).
    + split; [by left | by left].
    + split; [right; right; by left | by left].
  - split; [right; by left | by left].
  - apply verify_signature_raise_type in Hsig as ->.
    split; [by repeat right | by left].
Qed.

(** X9: A push that verifies but is not well-formed XML is answered 500 and
    changes nothing. *)
Theorem websub_post_malformed (request : Request) (w : World) (e : exn) :
  _verify_signature secret (rq_body request) (signature_of request) = Ok true →
  fromstring (decode (rq_body request)) = Raise e →
  websub_post secret decode fromstring request w
  = (w, Ok {| status := 500; body := Some "error" |}).
Proof.
  intros Hsig Hxml. unfold websub_post. fold (signature_of request).
  rewrite Hsig. unfold parse_atom_for_video. by rewrite Hxml.
Qed.

End PostMore.

(** With no secret configured nothing is checked: once read, every POST is answered
    204 or 500, never 403, and never raises. *)
Lemma websub_post_unsecured
    (decode : bytes → string) (fromstring : string → result Element)
    (request : Request) (w : World) :
  (websub_post "" decode fromstring request w).2 = Ok {| status := 204; body := None |}
  ∨ (websub_post "" decode fromstring request w).2
    = Ok {| status := 500; body := Some "error" |}.
Proof.
  unfold websub_post. cbn [_verify_signature Str.truthy negb].
  change (_verify_signature "" (rq_body request)
            (Multidict.ci_get (rq_headers request) "X-Hub-Signature" ""))
    with (@Ok bool true).
  destruct (parse_atom_for_video fromstring (decode (rq_body request))) as [[v|]|e];
    cbn [snd]; auto.
Qed.

Lemma websub_post_malformed_witness :
  _verify_signature "key" (rq_body (Sample.post ("sha1=" +:+ Sample.fox_sig)))
    (signature_of (Sample.post ("sha1=" +:+ Sample.fox_sig))) = Ok true
  ∧ Sample.fromstring (Sample.decode (rq_body (Sample.post ("sha1=" +:+ Sample.fox_sig))))
    = Raise (ParseError "syntax error: line 1, column 0")
  ∧ websub_post "key" Sample.decode Sample.fromstring
      (Sample.post ("sha1=" +:+ Sample.fox_sig)) init
    = (init, Ok {| status := 500; body := Some "error" |}).
Proof.
  assert (H1 : _verify_signature "key" (rq_body (Sample.post ("sha1=" +:+ Sample.fox_sig)))
                 (signature_of (Sample.post ("sha1=" +:+ Sample.fox_sig))) = Ok true)
    by (vm_compute; reflexivity).
  assert (H2 : Sample.fromstring
                 (Sample.decode (rq_body (Sample.post ("sha1=" +:+ Sample.fox_sig))))
               = Raise (ParseError "syntax error: line 1, column 0"))
    by (vm_compute; reflexivity).
  split; [exact H1 | split; [exact H2|]].
  exact (websub_post_malformed "key" Sample.decode Sample.fromstring
           (Sample.post ("sha1=" +:+ Sample.fox_sig)) init _ H1 H2).
Defined.

(** ** [subscribe_websub], [resubscribe_loop], [on_ready] *)

Section LifecycleProperties.

Variables topic callback secret : string.

(** X13: When the request cannot be sent, or the hub's answer cannot be read
    (whatever its status), the call raises that very exception, after
    posting one request. *)
Theorem subscribe_websub_failure (session : ClientSession) (e : exn) :
  let request := {| req_url := HUB_URL;
                    req_data := subscribe_data topic callback secret |} in
  hub session (length (posted session)) request = Raise e
  ∨ (∃ resp, hub session (length (posted session)) request = Ok resp
             ∧ resp_text resp = Raise e) →
  (subscribe_websub topic callback secret session).2 = Raise e
  ∧ posted (subscribe_websub topic callback secret session).1
    = posted session ++ [request].
Proof.
  intros request H. unfold subscribe_websub, session_post. cbn [fst snd posted].
  fold request. split; [|reflexivity].
  destruct H as [-> | (resp & -> & Htxt)]; cbn [mbind result_bind]; [done|].
  by rewrite Htxt.
Qed.

Lemma subscribe_websub_posts_one (session : ClientSession) :
  posted (subscribe_websub topic callback secret session).1
  = posted session
    ++ [{| req_url := HUB_URL; req_data := subscribe_data topic callback secret |}].
Proof. reflexivity. Qed.

Lemma omap_seq_shift {A} (f : nat → option A) (a n : nat) :
  omap f (seq (S a) n) = omap (fun k => f (S k)) (seq a n).
Proof.
  revert a. induction n as [|n IH]; intros a; [done|].
  cbn [seq]. cbn. by rewrite IH.
Qed.

Lemma omap_ext_seq {A} (f g : nat → option A) (a n : nat) :
  (∀ k, f k = g k) → omap f (seq a n) = omap g (seq a n).
Proof.
  intros Hfg. revert a. induction n as [|n IH]; intros a; [done|].
  cbn [seq]. cbn. by rewrite Hfg, IH.
Qed.

Lemma omap_seq_S {A} (f : nat → option A) (n : nat) :
  omap f (seq 0 (S n))
  = match f 0%nat with Some y => [y] | None => [] end
    ++ omap (fun k => f (S k)) (seq 0 n).
Proof.
  cbn [seq]. rewrite <- omap_seq_shift. cbn. by destruct (f 0%nat).
Qed.

(** X14: The renewal loop posts one request per turn, whatever the hub
    answered in the turns before, and reports exactly the exceptions of the
    turns that failed, in order: a failed turn is caught, reported, and
    followed by the next turn. *)
Theorem resubscribe_loop_reports (turns : nat) (net : ClientSession) (failures : list exn) :
  let request := {| req_url := HUB_URL;
                    req_data := subscribe_data topic callback secret |} in
  let before (k : nat) : ClientSession :=
    {| posted := posted net ++ repeat request k; hub := hub net |} in
  let raised (k : nat) : option exn :=
    match (subscribe_websub topic callback secret (before k)).2 with
    | Raise e => Some e
    | Ok _ => None
    end in
  let out := resubscribe_loop topic callback secret turns net failures in
  posted out.1 = posted net ++ repeat request turns
  ∧ out.2 = failures ++ omap raised (seq 0 turns).
Proof.
  cbv zeta. revert net failures.
  induction turns as [|turns IH]; intros [p h] failures; cbn [resubscribe_loop].
  - cbn. by rewrite !app_nil_r.
  - rewrite omap_seq_S.
    set (request := {| req_url := HUB_URL;
                       req_data := subscribe_data topic callback secret |}).
    assert (Hfirst : subscribe_websub topic callback secret
                       {| posted := posted {| posted := p; hub := h |} ++ repeat request 0;
                          hub := hub {| posted := p; hub := h |} |}
                     = subscribe_websub topic callback secret {| posted := p; hub := h |}).
    { cbn [posted hub repeat]. by rewrite app_nil_r. }
    assert (Hnext : ∀ k,
      {| posted := posted {| posted := p; hub := h |} ++ repeat request (S k);
         hub := hub {| posted := p; hub := h |} |}
      = {| posted := posted {| posted := p ++ [request]; hub := h |} ++ repeat request k;
           hub := hub {| posted := p ++ [request]; hub := h |} |}).
    { intros k. cbn [posted hub repeat]. by rewrite <- app_assoc. }
    rewrite (omap_ext_seq _
      (fun k => match (subscribe_websub topic callback secret
                         {| posted := posted {| posted := p ++ [request]; hub := h |}
                                      ++ repeat request k;
                            hub := hub {| posted := p ++ [request]; hub := h |} |}).2 with
                | Raise e => Some e
                | Ok _ => None
                end))
      by (intros k; by rewrite Hnext).
    rewrite Hfirst.
    pose proof (subscribe_websub_posts_one {| posted := p; hub := h |}) as Hp.
    assert (Hh : hub (subscribe_websub topic callback secret {| posted := p; hub := h |}).1 = h)
      by reflexivity.
    destruct (subscribe_websub topic callback secret {| posted := p; hub := h |})
      as [[p' h'] r].
    cbn [fst snd posted hub] in *. subst p' h'. fold request.
    destruct r as [u|e].
    + destruct (IH {| posted := p ++ [request]; hub := h |} failures) as [H1 H2].
      cbn [posted hub] in *. fold request in H1, H2.
      rewrite H1, H2, <- app_assoc. done.
    + destruct (IH {| posted := p ++ [request]; hub := h |} (failures ++ [e])) as [H1 H2].
      cbn [posted hub] in *. fold request in H1, H2.
      rewrite H1, H2, <- !app_assoc. done.
Qed.

Lemma subscribe_websub_ok (session : ClientSession) :
  (subscribe_websub topic callback secret session).2 = Ok tt
  ↔ ∃ resp txt,
      hub session (length (posted session))
        {| req_url := HUB_URL; req_data := subscribe_data topic callback secret |}
      = Ok resp
      ∧ resp_text resp = Ok txt ∧ resp_status resp ∈ accepted_statuses.
Proof.
  unfold subscribe_websub, session_post. cbn [fst snd].
  destruct (hub session _ _) as [resp|e0]; cbn [mbind result_bind].
  - destruct (resp_text resp) as [txt|e1] eqn:Htxt; cbn [mbind result_bind].
    + case_bool_decide as Hst.
      * split; [intros _; by exists resp, txt | done].
      * split; [discriminate|]. intros (resp' & txt' & [= <-] & _ & ?). done.
    + split; [discriminate|]. intros (resp' & txt' & [= <-] & ? & _). congruence.
  - split; [discriminate|]. intros (resp' & txt' & ? & _). discriminate.
Qed.

(** X15: The renewal loop is scheduled exactly when [on_ready] returns,
    that is when the web server started and the hub accepted the first
    subscription: it answered 200, 202 or 204 and its answer could be
    read.  If the first subscription fails, no renewal is ever scheduled;
    if the web server does not start, nothing is posted to the hub. *)
Theorem on_ready_renewal (web : result unit) (net : ClientSession) :
  let request := {| req_url := HUB_URL;
                    req_data := subscribe_data topic callback secret |} in
  let out := on_ready topic callback secret web net in
  (renewal_scheduled out.1 = true ↔ out.2 = Ok tt)
  ∧ (renewal_scheduled out.1 = true
     ↔ (∃ u, web = Ok u)
       ∧ ∃ resp txt, hub net (length (posted net)) request = Ok resp
                     ∧ resp_text resp = Ok txt
                     ∧ resp_status resp ∈ accepted_statuses)
  ∧ (web_server_started out.1 = false → posted (traffic out.1) = posted net)
  ∧ (web_server_started out.1 = true → posted (traffic out.1) = posted net ++ [request]).
Proof.
  intros request out. subst out. unfold on_ready.
  destruct web as [u|e]; cbn [fst snd renewal_scheduled web_server_started traffic].
  - pose proof (subscribe_websub_ok net) as Hok. fold request in Hok.
    pose proof (subscribe_websub_posts_one net) as Hp. fold request in Hp.
    destruct (subscribe_websub topic callback secret net) as [net' [[]|e]];
      cbn [fst snd renewal_scheduled web_server_started traffic] in *.
    + split; [done|]. split; [|split; [discriminate | done]].
      split; [intros _; split; [by exists u | by apply Hok] | done].
    + split; [split; discriminate|]. split; [|split; [discriminate | done]].
      split; [discriminate|]. intros [_ H]. apply Hok in H. discriminate.
  - split; [split; discriminate|]. split; [|split; [done | discriminate]].
    split; [discriminate | intros [[u ?] _]; discriminate].
Qed.

End LifecycleProperties.

Lemma subscribe_websub_failure_witness :
  (∃ resp, hub Scenario.garbled_hub 0
             {| req_url := HUB_URL; req_data := subscribe_data "topic" "callback" "key" |}
           = Ok resp
           ∧ resp_status resp = 200
           ∧ resp_text resp = Raise (ClientError "Response payload is not completed"))
  ∧ (subscribe_websub "topic" "callback" "key" Scenario.garbled_hub).2
    = Raise (ClientError "Response payload is not completed")
  ∧ (subscribe_websub "topic" "callback" "key" Scenario.unreachable_hub).2
    = Raise (ClientError "Cannot connect to host").
Proof.
  split; [eexists; repeat split|]. split.
  - apply (subscribe_websub_failure "topic" "callback" "key" Scenario.garbled_hub).
    right. eexists. split; reflexivity.
  - apply (subscribe_websub_failure "topic" "callback" "key" Scenario.unreachable_hub).
    left. reflexivity.
Defined.

Lemma on_ready_renewal_witness :
  let refused := on_ready "topic" "callback" "key" (Ok tt) Scenario.moody_hub in
  let garbled := on_ready "topic" "callback" "key" (Ok tt) Scenario.garbled_hub in
  renewal_scheduled refused.1 = false
  ∧ web_server_started refused.1 = true
  ∧ renewal_scheduled garbled.1 = false
  ∧ length (posted (traffic garbled.1)) = 1%nat
  ∧ (renewal_scheduled refused.1 = true ↔ refused.2 = Ok tt).
Proof.
  cbv zeta.
  pose proof (on_ready_renewal "topic" "callback" "key" (Ok tt) Scenario.moody_hub)
    as (H1 & _ & _ & _).
  pose proof (on_ready_renewal "topic" "callback" "key" (Ok tt) Scenario.garbled_hub)
    as (_ & _ & _ & H4).
  split; [reflexivity | split; [reflexivity | split; [reflexivity|]]].
  split; [by rewrite (H4 eq_refl) | exact H1].
Defined.

Lemma resubscribe_loop_reports_witness :
  let out := resubscribe_loop "topic" "callback" "key" 3 Scenario.moody_hub [] in
  length (posted out.1) = 3%nat
  ∧ out.2 = [RuntimeError "WebSub subscribe failed: 503 busy"].
Proof.
  cbv zeta.
  pose proof (resubscribe_loop_reports "topic" "callback" "key" 3
                Scenario.moody_hub []) as [H1 H2].
  split; [by rewrite H1 | by rewrite H2].
Defined.

(** ** [on_message] *)

Lemma lower_app (a b : string) : PyStr.lower (a +:+ b) = PyStr.lower a +:+ PyStr.lower b.
Proof.
  induction a as [|c a IH]; [done|].
  change (PyStr.lower (String c a +:+ b))
    with (String (PyStr.lower_char c) (PyStr.lower (a +:+ b))).
  by rewrite IH.
Qed.

Lemma prefix_app_self (p s : string) : String.prefix p (p +:+ s) = true.
Proof. apply (startswith_app p (p +:+ s)). by exists s. Qed.

Lemma contains_app (needle pre post : string) :
  PyStr.contains needle (pre +:+ needle +:+ post) = true.
Proof.
  induction pre as [|c pre IH].
  - change ("" +:+ needle +:+ post) with (needle +:+ post).
    destruct (needle +:+ post) eqn:Heq; cbn [PyStr.contains];
      rewrite <- Heq, prefix_app_self; reflexivity.
  - change (String c pre +:+ needle +:+ post)
      with (String c (pre +:+ needle +:+ post)).
    cbn [PyStr.contains]. rewrite IH. apply orb_true_r.
Qed.

(** X16: A message of another user that holds "test message" anywhere, in any
    mix of capitals, is deleted and answered in its channel with the
    author's mention, and then handed to the command processor. *)
Theorem on_message_trigger
    (bot_user : User) (ans : Answers) (message : Message) (pre hit post : string) :
  user_id (author message) ≠ user_id bot_user →
  content message = pre +:+ hit +:+ post →
  PyStr.lower hit = "test message" →
  deleted ans = Ok tt → replied ans = Ok tt →
  on_message bot_user ans message
  = ([DeleteMessage;
      SendText (channel message) (mention (author message) +:+ " - Trigger hit");
      ProcessCommands],
     processed ans).
Proof.
  intros Hother Hcontent Hhit Hdel Hrep. unfold on_message.
  apply Z.eqb_neq in Hother. rewrite Hother, Hcontent, !lower_app, Hhit.
  by rewrite contains_app, Hdel, Hrep.
Qed.

Lemma on_message_trigger_witness :
  user_id (author (Scenario.says Scenario.alice "This is a TEST Message!"))
  ≠ user_id Scenario.bot_user
  ∧ on_message Scenario.bot_user Scenario.all_fine
      (Scenario.says Scenario.alice "This is a TEST Message!")
    = ([DeleteMessage; SendText Sample.general "<@2> - Trigger hit"; ProcessCommands],
       Ok tt).
Proof.
  split; [discriminate|].
  apply (on_message_trigger Scenario.bot_user Scenario.all_fine
           (Scenario.says Scenario.alice "This is a TEST Message!")
           "This is a " "TEST Message" "!");
    try reflexivity.
  discriminate.
Defined.

(** X17: Which calls [on_message] makes: none at all on the bot's own messages;
    a message is deleted only if it is another user's and holds the
    trigger; and the command processor is reached for every message of
    another user unless the delete or the reply raised. *)
Theorem on_message_calls (bot_user : User) (ans : Answers) (message : Message) :
  let calls := (on_message bot_user ans message).1 in
  let own := user_id (author message) = user_id bot_user in
  let hit := PyStr.contains "test message" (PyStr.lower (content message)) = true in
  (own → calls = [] ∧ (on_message bot_user ans message).2 = Ok tt)
  ∧ (DeleteMessage ∈ calls ↔ ¬ own ∧ hit)
  ∧ (ProcessCommands ∈ calls
     ↔ ¬ own ∧ (hit → (∃ u, deleted ans = Ok u) ∧ (∃ u, replied ans = Ok u))).
Proof.
  cbv zeta. unfold on_message.
  destruct (Z.eqb_spec (user_id (author message)) (user_id bot_user)) as [Hown|Hown].
  - cbn [fst snd]. split; [done|]. split; split.
    + by intros ?%elem_of_nil.
    + by intros [? _].
    + by intros ?%elem_of_nil.
    + by intros [? _].
  - split; [done|].
    destruct (PyStr.contains "test message" (PyStr.lower (content message))).
    + destruct (deleted ans) as [u|e]; [destruct (replied ans) as [u'|e]|];
        cbn [fst]; (split; [split; [intros _; done | intros _; left]|]).
      * split; [intros _; split; [done | eauto] | intros _; do 2 right; left].
      * split.
        -- intros H. repeat (apply elem_of_cons in H as [H|H]; [discriminate|]).
           by apply elem_of_nil in H.
        -- intros [_ H]. destruct (H eq_refl) as [_ [? ?]]. discriminate.
      * split.
        -- intros H. repeat (apply elem_of_cons in H as [H|H]; [discriminate|]).
           by apply elem_of_nil in H.
        -- intros [_ H]. destruct (H eq_refl) as [[? ?] _]. discriminate.
    + cbn [fst]. split; split.
      * intros H. apply elem_of_cons in H as [H|H]; [discriminate|].
        by apply elem_of_nil in H.
      * intros [_ ?]. discriminate.
      * intros _. split; [done | discriminate].
      * intros _. left.
Qed.

Lemma on_message_calls_witness :
  (on_message Scenario.bot_user Scenario.all_fine
     (Scenario.says Scenario.bot_user "test message")).1 = []
  ∧ (on_message Scenario.bot_user Scenario.cannot_delete
       (Scenario.says Scenario.alice "test message")).1 = [DeleteMessage]
  ∧ user_id (author (Scenario.says Scenario.bot_user "test message"))
    = user_id Scenario.bot_user
  ∧ ((on_message Scenario.bot_user Scenario.all_fine
        (Scenario.says Scenario.bot_user "test message")).1 = []
     ∧ (on_message Scenario.bot_user Scenario.all_fine
          (Scenario.says Scenario.bot_user "test message")).2 = Ok tt).
Proof.
  split; [reflexivity | split; [reflexivity | split; [reflexivity|]]].
  exact (proj1 (on_message_calls Scenario.bot_user Scenario.all_fine
                  (Scenario.says Scenario.bot_user "test message")) eq_refl).
Defined.

(** ** What a run keeps *)

Lemma extends_refl (w : World) : extends w w.
Proof.
  split; [done|]. split; [done|]. intros i t Hi. exists t. by repeat split.
Qed.

Lemma extends_trans (w1 w2 w3 : World) : extends w1 w2 → extends w2 w3 → extends w1 w3.
Proof.
  intros (Hs & Hd & Ht) (Hs' & Hd' & Ht'). split; [by etrans|]. split; [by etrans|].
  intros i t Hi. destruct (Ht i t Hi) as (t2 & Hi2 & Hv & Hti & Hl & Hf).
  destruct (Ht' i t2 Hi2) as (t3 & Hi3 & Hv' & Hti' & Hl' & Hf').
  exists t3. repeat split; try congruence.
  intros Hfin. specialize (Hf Hfin). subst t2. by apply Hf'.
Qed.

Lemma extends_set_task (w w' : World) (i : nat) (t : Task) (pc : Pc) :
  tasks w !! i = Some t → ¬ finished t →
  seen_video_ids w ⊆ seen_video_ids w' → delivered w `prefix_of` delivered w' →
  tasks w' = tasks w →
  extends w (set_task i (at_pc t pc) w').
Proof.
  intros Hi Hnf Hs Hd Ht. split; [done|]. split; [done|].
  intros j u Hj. cbn [set_task tasks]. rewrite Ht.
  destruct (decide (i = j)) as [<-|Hne].
  - exists (at_pc t pc). rewrite list_lookup_insert_eq by (by eapply lookup_lt_Some).
    assert (u = t) as -> by congruence. by repeat split.
  - exists u. rewrite list_lookup_insert_ne by done. by repeat split.
Qed.

Section RunsMore.

Variable secret : string.
Variable decode : bytes → string.
Variable fromstring : string → result Element.

Lemma step_extends (ev : Event) (w : World) :
  extends w (step secret decode fromstring ev w).1.
Proof.
  destruct ev as [request|request|i env]; cbn [step].
  - apply extends_refl.
  - destruct (websub_post secret decode fromstring request w) as [w' r] eqn:Hpost.
    cbn [fst].
    pose proof (websub_post_tasks secret decode fromstring request w)
      as [H | (t & Hpc & H)]; rewrite Hpost in H; cbn [fst] in H; subst w'.
    + apply extends_refl.
    + split; [done|]. split; [done|]. intros j u Hj. exists u.
      cbn [create_task tasks]. rewrite lookup_app_l by (by eapply lookup_lt_Some).
      by repeat split.
  - destruct (tasks w !! i) as [t|] eqn:Hi; [|apply extends_refl].
    unfold announce_video.
    destruct (t_pc t) eqn:Hpc.
    + assert (Hnf : ¬ finished t)
        by (intros [H | [e H]]; congruence).
      case_bool_decide as Hseen; [|destruct (cached env)]; cbn [fst];
        apply extends_set_task; try done.
      all: cbn [add_seen seen_video_ids]; apply union_subseteq_r.
    + assert (Hnf : ¬ finished t)
        by (intros [H | [e H]]; congruence).
      destruct (fetched env); cbn [fst]; by apply extends_set_task.
    + assert (Hnf : ¬ finished t)
        by (intros [H | [e H]]; congruence).
      destruct (sent env) as [[]|e]; cbn [fst]; apply extends_set_task; try done.
      cbn [deliver delivered]. by apply prefix_app_r.
    + cbn [fst]. unfold set_task. rewrite list_insert_id by done.
      destruct w. apply extends_refl.
    + cbn [fst]. unfold set_task. rewrite list_insert_id by done.
      destruct w. apply extends_refl.
Qed.

(** X18: Whatever happens, nothing is taken back: an id once seen stays seen,
    delivered messages stay in their order, every task keeps its place and
    its arguments, and a task that has ended is never run again. *)
Theorem run_extends (evs : list Event) (w : World) :
  extends w (run secret decode fromstring evs w).1.
Proof.
  revert w. induction evs as [|ev evs IH]; intros w.
  - apply extends_refl.
  - rewrite run_cons. cbn [fst].
    eapply extends_trans; [apply step_extends | apply IH].
Qed.

Lemma count_in_flight_insert (l : list Task) (i : nat) (t : Task) (pc : Pc) :
  l !! i = Some t →
  (count in_flight (<[i:=at_pc t pc]> l) + (if in_flight t then 1 else 0)
   = count in_flight l + (if in_flight (at_pc t pc) then 1 else 0))%nat.
Proof. apply count_insert. Qed.

Lemma in_flight_eq (t : Task) :
  in_flight t
  = match t_pc t with AwaitFetch | AwaitSend _ => true | _ => false end.
Proof. reflexivity. Qed.

Lemma step_bound (ev : Event) (w : World) :
  (length (delivered w) + count in_flight (tasks w) ≤ size (seen_video_ids w))%nat →
  (length (delivered (step secret decode fromstring ev w).1)
   + count in_flight (tasks (step secret decode fromstring ev w).1)
   ≤ size (seen_video_ids (step secret decode fromstring ev w).1))%nat.
Proof.
  intros Hb. destruct ev as [request|request|i env]; cbn [step]; [done| |].
  - destruct (websub_post secret decode fromstring request w) as [w' r] eqn:Hpost.
    cbn [fst].
    pose proof (websub_post_tasks secret decode fromstring request w)
      as [H | (t & Hpc & H)]; rewrite Hpost in H; cbn [fst] in H; subst w'; [done|].
    cbn [create_task tasks delivered seen_video_ids]. rewrite count_app.
    cbn [count]. rewrite (in_flight_eq t), Hpc. lia.
  - destruct (tasks w !! i) as [t|] eqn:Hi; [|done].
    unfold announce_video.
    destruct (t_pc t) eqn:Hpc.
    + case_bool_decide as Hseen; [|destruct (cached env)]; cbn [fst].
      * pose proof (count_in_flight_insert _ _ _ Returned Hi) as Hc.
        rewrite (in_flight_eq t), (in_flight_eq (at_pc t _)) in Hc.
        cbn [at_pc t_pc] in Hc. rewrite Hpc in Hc.
        cbn [set_task tasks delivered seen_video_ids]. lia.
      * pose proof (count_in_flight_insert _ _ _ (AwaitSend c) Hi) as Hc.
        rewrite (in_flight_eq t), (in_flight_eq (at_pc t _)) in Hc.
        cbn [at_pc t_pc] in Hc. rewrite Hpc in Hc.
        cbn [set_task add_seen tasks delivered seen_video_ids].
        rewrite size_union, size_singleton by set_solver. lia.
      * pose proof (count_in_flight_insert _ _ _ AwaitFetch Hi) as Hc.
        rewrite (in_flight_eq t), (in_flight_eq (at_pc t _)) in Hc.
        cbn [at_pc t_pc] in Hc. rewrite Hpc in Hc.
        cbn [set_task add_seen tasks delivered seen_video_ids].
        rewrite size_union, size_singleton by set_solver. lia.
    + destruct (fetched env) as [c|e]; cbn [fst].
      * pose proof (count_in_flight_insert _ _ _ (AwaitSend c) Hi) as Hc.
        rewrite (in_flight_eq t), (in_flight_eq (at_pc t _)) in Hc.
        cbn [at_pc t_pc] in Hc. rewrite Hpc in Hc.
        cbn [set_task tasks delivered seen_video_ids]. lia.
      * pose proof (count_in_flight_insert _ _ _ (Raised e) Hi) as Hc.
        rewrite (in_flight_eq t), (in_flight_eq (at_pc t _)) in Hc.
        cbn [at_pc t_pc] in Hc. rewrite Hpc in Hc.
        cbn [set_task tasks delivered seen_video_ids]. lia.
    + destruct (sent env) as [[]|e]; cbn [fst].
      * pose proof (count_in_flight_insert _ _ _ Returned Hi) as Hc.
        rewrite (in_flight_eq t), (in_flight_eq (at_pc t _)) in Hc.
        cbn [at_pc t_pc] in Hc. rewrite Hpc in Hc.
        cbn [set_task deliver tasks delivered seen_video_ids].
        rewrite length_app. cbn [length]. lia.
      * pose proof (count_in_flight_insert _ _ _ (Raised e) Hi) as Hc.
        rewrite (in_flight_eq t), (in_flight_eq (at_pc t _)) in Hc.
        cbn [at_pc t_pc] in Hc. rewrite Hpc in Hc.
        cbn [set_task tasks delivered seen_video_ids]. lia.
    + cbn [fst]. unfold set_task. rewrite list_insert_id by done. by destruct w.
    + cbn [fst]. unfold set_task. rewrite list_insert_id by done. by destruct w.
Qed.

(** X19: The process never delivers more messages than it has seen ids: the
    messages delivered and the coroutines still under way together never
    outnumber the ids in the set. *)
Theorem deliveries_bounded (evs : list Event) :
  let w := (run secret decode fromstring evs init).1 in
  (length (delivered w) + count in_flight (tasks w) ≤ size (seen_video_ids w))%nat.
Proof.
  cbv zeta.
  assert (H : ∀ w,
    (length (delivered w) + count in_flight (tasks w) ≤ size (seen_video_ids w))%nat →
    (length (delivered (run secret decode fromstring evs w).1)
     + count in_flight (tasks (run secret decode fromstring evs w).1)
     ≤ size (seen_video_ids (run secret decode fromstring evs w).1))%nat).
  { induction evs as [|ev evs IH]; intros w Hb; [done|].
    rewrite run_cons. cbn [fst]. by apply IH, step_bound. }
  apply H. cbn. lia.
Qed.

End RunsMore.

(** ** A push from end to end *)

Lemma insert_at_length {A} (l rest : list A) (x y : A) :
  <[length l:=y]> (l ++ x :: rest) = l ++ y :: rest.
Proof. rewrite insert_app_r_alt by done. by rewrite Nat.sub_diag. Qed.

Section EndToEnd.

Variable secret : string.
Variable decode : bytes → string.
Variable fromstring : string → result Element.

Lemma step_post (request : Request) (w : World) :
  step secret decode fromstring (HttpPost request) w
  = ((websub_post secret decode fromstring request w).1,
     [Responded (websub_post secret decode fromstring request w).2]).
Proof. cbn [step]. by destruct (websub_post _ _ _ _ _) as [w' r]. Qed.

Lemma length_snoc (l : list Task) (t : Task) : length (l ++ [t]) = S (length l).
Proof. rewrite length_app. cbn. lia. Qed.

Lemma step_run_at (s : gset string) (l rest : list Task) (d : list (Channel * string))
    (t : Task) (env : Env) :
  step secret decode fromstring (Run (length l) env)
    {| seen_video_ids := s; tasks := l ++ t :: rest; delivered := d |}
  = (set_task (length l)
       (announce_video env t
          {| seen_video_ids := s; tasks := l ++ t :: rest; delivered := d |}).1.1
       (announce_video env t
          {| seen_video_ids := s; tasks := l ++ t :: rest; delivered := d |}).1.2,
     (announce_video env t
        {| seen_video_ids := s; tasks := l ++ t :: rest; delivered := d |}).2).
Proof.
  cbn [step tasks]. rewrite list_lookup_middle by done.
  by destruct (announce_video _ _ _) as [[t' w'] acts].
Qed.

Lemma push_run
    (request : Request) (s : gset string) (l : list Task) (d : list (Channel * string))
    (v : Video) (ch : Channel) (e1 e2 e3 e4 : Env) :
  _verify_signature secret (rq_body request) (signature_of request) = Ok true →
  parse_atom_for_video fromstring (decode (rq_body request)) = Ok (Some v) →
  v_id v ∉ s →
  cached e1 = None → fetched e2 = Ok ch → sent e3 = Ok tt →
  run secret decode fromstring
    [HttpPost request; Run (length l) e1; Run (length l) e2; Run (length l) e3;
     HttpPost request; Run (S (length l)) e4]
    {| seen_video_ids := s; tasks := l; delivered := d |}
  = ({| seen_video_ids := {[v_id v]} ∪ s;
        tasks := l ++ [{| t_video_id := v_id v; t_title := v_title v;
                          t_link := v_link v; t_pc := Returned |};
                       {| t_video_id := v_id v; t_title := v_title v;
                          t_link := v_link v; t_pc := Returned |}];
        delivered := d ++ [(ch, announcement (v_title v) (v_link v))] |},
     [Responded (Ok {| status := 204; body := None |});
      Added (v_id v); Lookup (v_id v); Fetch (v_id v);
      Send (v_id v) ch (announcement (v_title v) (v_link v));
      Responded (Ok {| status := 204; body := None |});
      Rejected (v_id v)]).
Proof.
  intros Hsig Hparse Hnew H1 H2 H3.
  cbn [run].
  rewrite step_post, (websub_post_accepted _ _ _ _ _ _ Hsig Hparse).
  unfold create_task. cbn [fst snd seen_video_ids tasks delivered].
  (* the task starts: the id is new and the channel is not cached *)
  rewrite step_run_at. unfold announce_video at 1 2 3.
  cbn [t_pc t_video_id t_title t_link seen_video_ids fst snd].
  rewrite (bool_decide_eq_false_2 _ Hnew), H1.
  unfold set_task, add_seen, at_pc.
  cbn [fst snd seen_video_ids tasks delivered t_pc t_video_id t_title t_link].
  rewrite insert_at_length.
  (* the fetch returns the channel *)
  rewrite step_run_at. unfold announce_video at 1 2 3.
  cbn [t_pc t_video_id t_title t_link fst snd]. rewrite H2.
  unfold set_task, at_pc.
  cbn [fst snd seen_video_ids tasks delivered t_pc t_video_id t_title t_link].
  rewrite insert_at_length.
  (* the send returns *)
  rewrite step_run_at. unfold announce_video at 1 2 3.
  cbn [t_pc t_video_id t_title t_link fst snd]. rewrite H3.
  unfold set_task, deliver, at_pc.
  cbn [fst snd seen_video_ids tasks delivered t_pc t_video_id t_title t_link].
  rewrite insert_at_length.
  (* the second push *)
  rewrite step_post, (websub_post_accepted _ _ _ _ _ _ Hsig Hparse).
  unfold create_task. cbn [fst snd seen_video_ids tasks delivered].
  rewrite <- (length_snoc l
    {| t_video_id := v_id v; t_title := v_title v; t_link := v_link v;
       t_pc := Returned |}).
  rewrite step_run_at. unfold announce_video at 1 2 3.
  cbn [t_pc t_video_id t_title t_link seen_video_ids fst snd].
  rewrite bool_decide_eq_true_2 by (apply elem_of_union_l, elem_of_singleton; done).
  unfold set_task, at_pc.
  cbn [fst snd seen_video_ids tasks delivered app t_pc t_video_id t_title t_link].
  rewrite insert_at_length, <- app_assoc. reflexivity.
Qed.

(** X20: A push that verifies and carries an entry with a new id is answered
    204 at once; its task then adds the id, fetches the channel and sends
    one message, the title and the link on two lines after the marker.
    The same push once more is answered 204 again and its task is
    rejected: nothing more is delivered. *)
Theorem push_is_announced
    (request : Request) (w : World) (v : Video) (ch : Channel)
    (e1 e2 e3 e4 : Env) :
  _verify_signature secret (rq_body request) (signature_of request) = Ok true →
  parse_atom_for_video fromstring (decode (rq_body request)) = Ok (Some v) →
  v_id v ∉ seen_video_ids w →
  cached e1 = None → fetched e2 = Ok ch → sent e3 = Ok tt →
  let i := length (tasks w) in
  let message := announcement (v_title v) (v_link v) in
  let out := run secret decode fromstring
               [HttpPost request; Run i e1; Run i e2; Run i e3;
                HttpPost request; Run (S i) e4] w in
  delivered out.1 = delivered w ++ [(ch, message)]
  ∧ seen_video_ids out.1 = {[v_id v]} ∪ seen_video_ids w
  ∧ out.2 = [Responded (Ok {| status := 204; body := None |});
             Added (v_id v); Lookup (v_id v); Fetch (v_id v);
             Send (v_id v) ch message;
             Responded (Ok {| status := 204; body := None |});
             Rejected (v_id v)].
Proof.
  intros Hsig Hparse Hnew H1 H2 H3 i message out. subst i message out.
  destruct w as [s l d]. cbn [seen_video_ids tasks delivered] in *.
  by rewrite (push_run request s l d v ch e1 e2 e3 e4 Hsig Hparse Hnew H1 H2 H3).
Qed.

End EndToEnd.

Lemma push_is_announced_witness :
  let out := run "key" Sample.decode Sample.fromstring
               [HttpPost Sample.post_v1; Run 0 Sample.discord_up;
                Run 0 Sample.discord_up; Run 0 Sample.discord_up;
                HttpPost Sample.post_v1; Run 1 Sample.discord_up] init in
  _verify_signature "key" (rq_body Sample.post_v1) (signature_of Sample.post_v1) = Ok true
  ∧ ("v1" ∉ seen_video_ids init)
  ∧ delivered out.1
    = [(Sample.general,
        announcement (Some "Hello") (Some "https://example.com/v1"))].
Proof.
  cbv zeta.
  assert (Hsig : _verify_signature "key" (rq_body Sample.post_v1)
                   (signature_of Sample.post_v1) = Ok true)
    by (vm_compute; reflexivity).
  assert (Hparse : parse_atom_for_video Sample.fromstring
                     (Sample.decode (rq_body Sample.post_v1))
                   = Ok (Some {| v_id := "v1"; v_title := Some "Hello";
                                 v_link := Some "https://example.com/v1" |}))
    by (vm_compute; reflexivity).
  split; [exact Hsig | split; [apply not_elem_of_empty|]].
  exact (proj1 (push_is_announced "key" Sample.decode Sample.fromstring
                  Sample.post_v1 init _ Sample.general
                  Sample.discord_up Sample.discord_up Sample.discord_up
                  Sample.discord_up Hsig Hparse (not_elem_of_empty _)
                  eq_refl eq_refl eq_refl)).
Defined.

Lemma resend_after_forbidden_witness :
  let bad := {| rq_body := rq_body Sample.post_v1;
                rq_headers := [("X-Hub-Signature",
                                "sha1=0000000000000000000000000000000000000000")];
                rq_query := [] |} in
  _verify_signature "key" (rq_body bad) (signature_of bad) = Ok false
  ∧ _verify_signature "key" (rq_body Sample.post_v1) (signature_of Sample.post_v1)
    = Ok true
  ∧ (run "key" Sample.decode Sample.fromstring
       [HttpPost bad; HttpPost Sample.post_v1; Run 0 Sample.discord_up] init).2
    = [Responded (Ok {| status := 403; body := Some "Invalid signature" |});
       Responded (Ok {| status := 204; body := None |});
       Added "v1"; Lookup "v1"; Fetch "v1"].
Proof.
  cbv zeta.
  assert (Hbad : _verify_signature "key" (rq_body Sample.post_v1)
                   "sha1=0000000000000000000000000000000000000000" = Ok false)
    by (vm_compute; reflexivity).
  assert (Hsig : _verify_signature "key" (rq_body Sample.post_v1)
                   (signature_of Sample.post_v1) = Ok true)
    by (vm_compute; reflexivity).
  assert (Hparse : parse_atom_for_video Sample.fromstring
                     (Sample.decode (rq_body Sample.post_v1))
                   = Ok (Some {| v_id := "v1"; v_title := Some "Hello";
                                 v_link := Some "https://example.com/v1" |}))
    by (vm_compute; reflexivity).
  split; [exact Hbad | split; [exact Hsig|]].
  exact (resend_after_forbidden "key" Sample.decode Sample.fromstring
           {| rq_body := rq_body Sample.post_v1;
              rq_headers := [("X-Hub-Signature",
                              "sha1=0000000000000000000000000000000000000000")];
              rq_query := [] |}
           Sample.post_v1 init _ Sample.discord_up
           Hbad Hsig Hparse (not_elem_of_empty _)).
Defined.

(** ** [websub_post] from its first line *)

Section FromRead.

Variable secret : string.
Variable decode : bytes → string.
Variable fromstring : string → result Element.

(** X8: A POST is answered 204, 403 or 500, or the handler raises: either
    the exception of reading the body, or the [TypeError] of the signature
    check; nothing else leaves it.  It changes the world only when the
    body was read and it answers 204 for a parsed entry, and then only by
    scheduling one task for that entry, whose id is not empty. *)
Theorem websub_post_from_read_outcomes (incoming : Incoming) (w : World) :
  let out := websub_post_from_read secret decode fromstring incoming w in
  (out.2 = Ok {| status := 204; body := None |}
   ∨ out.2 = Ok {| status := 403; body := Some "Invalid signature" |}
   ∨ out.2 = Ok {| status := 500; body := Some "error" |}
   ∨ out.2 = Raise (TypeError "comparing strings with non-ASCII characters is not supported")
   ∨ ∃ e, in_read incoming = Raise e ∧ out.2 = Raise e)
  ∧ (out.1 = w
     ∨ ∃ raw v, in_read incoming = Ok raw
                ∧ parse_atom_for_video fromstring (decode raw) = Ok (Some v)
                ∧ v_id v ≠ ""
                ∧ out.2 = Ok {| status := 204; body := None |}
                ∧ out.1 = create_task {| t_video_id := v_id v; t_title := v_title v;
                                         t_link := v_link v; t_pc := Created |} w).
Proof.
  cbv zeta. unfold websub_post_from_read.
  destruct (in_read incoming) as [raw|e]; cbn [fst snd].
  - destruct (websub_post_outcomes secret decode fromstring
                {| rq_body := raw; rq_headers := in_headers incoming;
                   rq_query := in_query incoming |} w) as [Hr Hw].
    cbn [rq_body] in Hw. split.
    + destruct Hr as [H | [H | [H | H]]]; rewrite H; auto.
    + destruct Hw as [H | (v & Hparse & Hv & Hr' & Hw')]; [by left|].
      right. exists raw, v. done.
  - split; [|by left]. do 4 right. by exists e.
Qed.

(** X10: With no secret configured nothing is checked: a POST whose body
    is read is answered 204 or 500, never 403, whatever its headers, and
    the handler raises only when reading the body does, with that
    exception. *)
Theorem websub_post_from_read_unsecured (incoming : Incoming) (w : World) :
  let out := websub_post_from_read "" decode fromstring incoming w in
  ((∃ raw, in_read incoming = Ok raw)
   ∧ (out.2 = Ok {| status := 204; body := None |}
      ∨ out.2 = Ok {| status := 500; body := Some "error" |}))
  ∨ (∃ e, in_read incoming = Raise e ∧ out = (w, Raise e)).
Proof.
  cbv zeta. unfold websub_post_from_read.
  destruct (in_read incoming) as [raw|e].
  - left. split; [by exists raw|]. apply websub_post_unsecured.
  - right. by exists e.
Qed.

End FromRead.
